(** * ebo: exponential backoff retry — a shallow embedding

    Sources embedded here (package [ebo]):
    - [retry.go]    : [RetryConfig], the [With*] options and [Retry];
    - [options.go]  : the short option vocabulary ([Initial], [Tries],
                      [Database], ...);
    - [helpers.go]  : [permanentError], [RetryWithContext],
                      [RetryWithLogging], [RetryWithCondition];
    - [iter.go]     : [Attempt], [Attempts] and [DoWithAttempts].

    The source tree holds two revisions of [retry.go] and two of [iter.go].
    - [Retry] below is the revision whose loop checks for [permanentError]
      (printed after the tests, helpers_test.go:244-387); it is the one
      that [helpers.go], [options.go] and the tests are written against.
      [Legacy.Retry] is the revision in retry.go:68-110: the same loop
      without that check.
    - [IterFunc] is the revision of the iterator typed
      [func(func(a Attempt) bool)], [IterSeq] the one typed [iter.Seq].

    Modelling conventions.
    - [time.Duration] is an [int64] count of nanoseconds; it is a [Z] here.
      The retry loops only compare durations, take [min] and convert from
      floats, so no wrap-around arises in the code paths below.
    - [float64] is modelled by exact rationals [Q]: products, sums and
      comparisons are the exact ones, and the conversion
      [time.Duration(x)] truncates toward zero as Go does for values in
      range.  Rounding of binary64 is not modelled.
    - [error] is an interface value that may be [nil]: [option error].
    - The wall clock and the random source are read from an environment
      [Env]: [since k] is what [time.Since(startTime)] reports when it is
      read in the round of the [k]-th attempt, [rnd k] is the result of the
      random draw made in that round.  Theorems quantify over every [Env].
    - Effects ([time.Sleep], runs of the caller's function, log lines,
      attempts handed to a consumer) are recorded as a list of [Event]s in
      the order they happen.
    - [for { ... }] loops take a [fuel] bound; a run that needs more
      iterations than [fuel] ends in [OutOfFuel]. *)

From Stdlib Require Import ZArith QArith Qround List String Bool Lia Lqa.
From Stdlib Require Import DecimalString Qminmax.
Import ListNotations.
Local Open Scope Z_scope.

(** ** Durations and floats *)

Definition Duration := Z.
Definition float64 := Q.

Definition Nanosecond : Duration := 1.
Definition Microsecond : Duration := 1000 * Nanosecond.
Definition Millisecond : Duration := 1000 * Microsecond.
Definition Second : Duration := 1000 * Millisecond.
Definition Minute : Duration := 60 * Second.

(** [float64(d)] for a duration [d]. *)
Definition float64_of_Duration (d : Duration) : float64 := inject_Z d.

(** [time.Duration(x)] for a float [x]: the fractional part is discarded
    (truncation toward zero). *)
Definition Duration_of_float64 (x : float64) : Duration :=
  Z.quot (Qnum x) (Zpos (Qden x)).

(** [x > 0] on floats. *)
Definition float_pos (x : float64) : bool := negb (Qle_bool x 0).

(** ** Errors (helpers.go:84-95 and the standard library's error values) *)

#[warnings="-register-all"]
Inductive error : Type :=
| errorString (s : string)                 (* errors.New, fmt.Errorf without %w *)
| wrapError (msg : string) (cause : error) (* fmt.Errorf with one %w verb *)
| permanentError (err : option error)      (* &permanentError{err} *)
| Canceled                                 (* context.Canceled *)
| DeadlineExceeded.                        (* context.DeadlineExceeded *)

(** [var p *permanentError; errors.As(err, &p)]: walks the chain of
    [Unwrap] and stops at the first [*permanentError]; the result is the
    [err] field of the marker found. *)
Fixpoint errors_As_permanent (e : error) : option (option error) :=
  match e with
  | permanentError inner => Some inner
  | wrapError _ cause => errors_As_permanent cause
  | errorString _ | Canceled | DeadlineExceeded => None
  end.

(** The [Error()] method, and [%v] applied to a possibly nil error. *)
Fixpoint Error (e : error) : string :=
  match e with
  | errorString s => s
  | wrapError msg _ => msg
  | permanentError inner =>
      ("non-retryable error: " ++
       match inner with Some e' => Error e' | None => "<nil>" end)%string
  | Canceled => "context canceled"
  | DeadlineExceeded => "context deadline exceeded"
  end.

(** ** RetryConfig (retry.go:9-17) *)

Record RetryConfig : Type := mkRetryConfig {
  InitialInterval : Duration;
  MaxInterval : Duration;
  MaxRetries : Z;
  Multiplier : float64;
  MaxElapsedTime : Duration;
  RandomizeFactor : float64
}.

(** [type Option func(c : pointer to RetryConfig)]: the closure updates the record
    behind the pointer; the updated record is returned here. *)
Definition Option := RetryConfig -> RetryConfig.

Definition set_InitialInterval (v : Duration) (c : RetryConfig) :=
  mkRetryConfig v (MaxInterval c) (MaxRetries c) (Multiplier c)
                (MaxElapsedTime c) (RandomizeFactor c).
Definition set_MaxInterval (v : Duration) (c : RetryConfig) :=
  mkRetryConfig (InitialInterval c) v (MaxRetries c) (Multiplier c)
                (MaxElapsedTime c) (RandomizeFactor c).
Definition set_MaxRetries (v : Z) (c : RetryConfig) :=
  mkRetryConfig (InitialInterval c) (MaxInterval c) v (Multiplier c)
                (MaxElapsedTime c) (RandomizeFactor c).
Definition set_Multiplier (v : float64) (c : RetryConfig) :=
  mkRetryConfig (InitialInterval c) (MaxInterval c) (MaxRetries c) v
                (MaxElapsedTime c) (RandomizeFactor c).
Definition set_MaxElapsedTime (v : Duration) (c : RetryConfig) :=
  mkRetryConfig (InitialInterval c) (MaxInterval c) (MaxRetries c)
                (Multiplier c) v (RandomizeFactor c).
Definition set_RandomizeFactor (v : float64) (c : RetryConfig) :=
  mkRetryConfig (InitialInterval c) (MaxInterval c) (MaxRetries c)
                (Multiplier c) (MaxElapsedTime c) v.

(** *** Options of retry.go:22-62 *)

Definition WithInitialInterval (interval : Duration) : Option :=
  fun c => set_InitialInterval interval c.
Definition WithMaxInterval (interval : Duration) : Option :=
  fun c => set_MaxInterval interval c.
Definition WithMaxRetries (retries : Z) : Option :=
  fun c => set_MaxRetries retries c.
Definition WithMultiplier (multiplier : float64) : Option :=
  fun c => set_Multiplier multiplier c.
Definition WithMaxElapsedTime (duration : Duration) : Option :=
  fun c => set_MaxElapsedTime duration c.
Definition WithRandomizeFactor (factor : float64) : Option :=
  fun c => set_RandomizeFactor factor c.

(** *** Options of options.go *)

Definition Initial (d : Duration) : Option := fun c => set_InitialInterval d c.
Definition Max (d : Duration) : Option := fun c => set_MaxInterval d c.
Definition MaxTime (d : Duration) : Option := fun c => set_MaxElapsedTime d c.
Definition Tries (n : Z) : Option := fun c => set_MaxRetries n c.
Definition Multiplier_ (f : float64) : Option := fun c => set_Multiplier f c.
Definition Jitter (f : float64) : Option := fun c => set_RandomizeFactor f c.
Definition NoJitter : Option := fun c => set_RandomizeFactor 0%Q c.
Definition Forever : Option := fun c => set_MaxRetries 0 c.

Definition Aggressive : Option := fun c =>
  let c := set_InitialInterval (100 * Millisecond) c in
  let c := set_MaxInterval (5 * Second) c in
  let c := set_MaxRetries 20 c in
  let c := set_Multiplier (3 # 2) c in
  set_RandomizeFactor (1 # 10) c.

Definition Gentle : Option := fun c =>
  let c := set_InitialInterval (2 * Second) c in
  let c := set_MaxInterval (30 * Second) c in
  let c := set_MaxRetries 5 c in
  let c := set_Multiplier 2%Q c in
  set_RandomizeFactor (1 # 2) c.

Definition Linear : Option := fun c =>
  let c := set_Multiplier 1%Q c in
  set_RandomizeFactor 0%Q c.

Definition Exponential (factor : float64) : Option := fun c =>
  let c := set_Multiplier factor c in
  set_RandomizeFactor (1 # 4) c.

Definition HTTPStatus : Option := fun c =>
  let c := set_InitialInterval (500 * Millisecond) c in
  let c := set_MaxInterval (10 * Second) c in
  let c := set_MaxRetries 5 c in
  let c := set_Multiplier 2%Q c in
  set_RandomizeFactor (1 # 4) c.

Definition Database : Option := fun c =>
  let c := set_InitialInterval (1 * Second) c in
  let c := set_MaxInterval (30 * Second) c in
  let c := set_MaxRetries 10 c in
  let c := set_Multiplier 2%Q c in
  let c := set_RandomizeFactor (1 # 2) c in
  set_MaxElapsedTime (2 * Minute) c.

Definition API : Option := fun c =>
  let c := set_InitialInterval (200 * Millisecond) c in
  let c := set_MaxInterval (5 * Second) c in
  let c := set_MaxRetries 3 c in
  let c := set_Multiplier 2%Q c in
  set_RandomizeFactor (3 # 10) c.

Definition Quick : Option := fun c =>
  let c := set_InitialInterval (50 * Millisecond) c in
  let c := set_MaxInterval (1 * Second) c in
  let c := set_MaxRetries 3 c in
  let c := set_Multiplier 2%Q c in
  set_RandomizeFactor (1 # 10) c.

Definition Timeout (d : Duration) : Option := fun c =>
  let c := set_MaxElapsedTime d c in
  set_MaxRetries 0 c.

(** The whole option vocabulary, as the calls a client can write. *)
Inductive OptionCall : Type :=
| CallWithInitialInterval (d : Duration)
| CallWithMaxInterval (d : Duration)
| CallWithMaxRetries (n : Z)
| CallWithMultiplier (f : float64)
| CallWithMaxElapsedTime (d : Duration)
| CallWithRandomizeFactor (f : float64)
| CallInitial (d : Duration)
| CallMax (d : Duration)
| CallMaxTime (d : Duration)
| CallTries (n : Z)
| CallMultiplier (f : float64)
| CallJitter (f : float64)
| CallNoJitter
| CallForever
| CallAggressive
| CallGentle
| CallLinear
| CallExponential (f : float64)
| CallHTTPStatus
| CallDatabase
| CallAPI
| CallQuick
| CallTimeout (d : Duration).

Definition option_of (o : OptionCall) : Option :=
  match o with
  | CallWithInitialInterval d => WithInitialInterval d
  | CallWithMaxInterval d => WithMaxInterval d
  | CallWithMaxRetries n => WithMaxRetries n
  | CallWithMultiplier f => WithMultiplier f
  | CallWithMaxElapsedTime d => WithMaxElapsedTime d
  | CallWithRandomizeFactor f => WithRandomizeFactor f
  | CallInitial d => Initial d
  | CallMax d => Max d
  | CallMaxTime d => MaxTime d
  | CallTries n => Tries n
  | CallMultiplier f => Multiplier_ f
  | CallJitter f => Jitter f
  | CallNoJitter => NoJitter
  | CallForever => Forever
  | CallAggressive => Aggressive
  | CallGentle => Gentle
  | CallLinear => Linear
  | CallExponential f => Exponential f
  | CallHTTPStatus => HTTPStatus
  | CallDatabase => Database
  | CallAPI => API
  | CallQuick => Quick
  | CallTimeout d => Timeout d
  end.

(** The fields of a configuration, to speak of "the same field". *)
Inductive Field : Type :=
| FInitialInterval | FMaxInterval | FMaxRetries
| FMultiplier | FMaxElapsedTime | FRandomizeFactor.

Inductive FieldValue : Type :=
| VDuration (d : Duration)
| VInt (n : Z)
| VFloat (f : float64).

Definition field (F : Field) (c : RetryConfig) : FieldValue :=
  match F with
  | FInitialInterval => VDuration (InitialInterval c)
  | FMaxInterval => VDuration (MaxInterval c)
  | FMaxRetries => VInt (MaxRetries c)
  | FMultiplier => VFloat (Multiplier c)
  | FMaxElapsedTime => VDuration (MaxElapsedTime c)
  | FRandomizeFactor => VFloat (RandomizeFactor c)
  end.

(** An option sets field [F] to [v] when, whatever configuration it is
    applied to, the field holds [v] afterwards; it leaves [F] alone when
    the field is never changed. *)
Definition sets (o : Option) (F : Field) (v : FieldValue) : Prop :=
  forall c, field F (o c) = v.
Definition leaves (o : Option) (F : Field) : Prop :=
  forall c, field F (o c) = field F c.

(** The defaults of [Retry] and [Attempts] (retry.go:69-76). *)
Definition defaultConfig : RetryConfig := {|
  InitialInterval := 500 * Millisecond;
  MaxInterval := 30 * Second;
  MaxRetries := 10;
  Multiplier := 2%Q;
  MaxElapsedTime := 5 * Minute;
  RandomizeFactor := 1 # 2
|}.

(** [for _, opt := range opts { opt(config) }] (retry.go:78-80). *)
Definition applyOptions (opts : list Option) (config : RetryConfig)
  : RetryConfig :=
  fold_left (fun c opt => opt c) opts config.

(** ** Attempt (iter.go) *)

(** The [Context] field of an attempt.  [Attempts] stores
    [context.Background()]; [CallerContext] stands for a context supplied
    by the caller ([AttemptsWithContext], not embedded here). *)
Inductive ContextRef : Type := Background | CallerContext.

Record Attempt : Type := mkAttempt {
  Number : Z;
  Delay : Duration;
  Elapsed : Duration;
  LastError : option error;
  Context : ContextRef
}.

(** ** Effects, environment, results *)

Inductive Event : Type :=
| EvCall (result : option error) (* the caller's function ran and returned this *)
| EvSleep (d : Duration)         (* time.Sleep(d) *)
| EvLog (line : string)          (* logger.Printf produced this line *)
| EvYield (a : Attempt).         (* an iterator handed this attempt to yield *)

Record Env : Type := mkEnv {
  since : Z -> Duration;
  rnd : Z -> float64
}.

Inductive Result : Type :=
| Return (err : option error)
| OutOfFuel.

(** A Go function acting on program state [St]: result, new state and the
    events it caused. *)
Definition Action (St A : Type) : Type := St -> A * St * list Event.

(** [type RetryableFunc func() error] *)
Definition RetryableFunc (St : Type) : Type := Action St (option error).

(** A caller's function given by its effect on the state; each run is
    recorded. *)
Definition invoke {St : Type} (op : St -> option error * St)
  : RetryableFunc St :=
  fun s => let (r, s') := op s in (r, s', [EvCall r]).

Definition calls (t : list Event) : list (option error) :=
  flat_map (fun e => match e with EvCall r => [r] | _ => [] end) t.
Definition sleeps (t : list Event) : list Duration :=
  flat_map (fun e => match e with EvSleep d => [d] | _ => [] end) t.
Definition loglines (t : list Event) : list string :=
  flat_map (fun e => match e with EvLog l => [l] | _ => [] end) t.

(** ** The delay computation (retry.go:100-106) *)

(** [min(time.Duration(float64(currentInterval)*config.Multiplier),
        config.MaxInterval)] with the value before [min] named. *)
Definition rawInterval (config : RetryConfig) (currentInterval : Duration)
  : Duration :=
  Duration_of_float64
    (float64_of_Duration currentInterval * Multiplier config)%Q.

Definition grownInterval (config : RetryConfig) (currentInterval : Duration)
  : Duration :=
  Z.min (rawInterval config currentInterval) (MaxInterval config).

(** The body of [if config.RandomizeFactor > 0 { ... }]; [r] is the value of
    [rand.Float64()]. *)
Definition jitterInterval (config : RetryConfig) (nextInterval : Duration)
  (r : float64) : Duration :=
  let delta := (RandomizeFactor config * float64_of_Duration nextInterval)%Q in
  let minInterval := (float64_of_Duration nextInterval - delta)%Q in
  let maxInterval := (float64_of_Duration nextInterval + delta)%Q in
  Duration_of_float64 (minInterval + r * (maxInterval - minInterval))%Q.

Definition computeNextInterval (config : RetryConfig)
  (currentInterval : Duration) (r : float64) : Duration :=
  let nextInterval := grownInterval config currentInterval in
  if float_pos (RandomizeFactor config)
  then jitterInterval config nextInterval r
  else nextInterval.

(** ** Retry (retry.go; the revision with the permanent-error check,
       printed at helpers_test.go:283-331) *)

Section RetryLoop.
Context {St : Type}.
Variable fn : RetryableFunc St.
Variable config : RetryConfig.
Variable env : Env.

(** The [for { ... }] loop; [attempts] and [currentInterval] are the
    loop's variables. *)
Fixpoint Retry_loop (fuel : nat) (attempts : Z) (currentInterval : Duration)
  (s : St) : Result * St * list Event :=
  match fuel with
  | O => (OutOfFuel, s, [])
  | S fuel' =>
      let '(err, s1, t1) := fn s in
      match err with
      | None => (Return None, s1, t1)
      | Some e =>
          match errors_As_permanent e with
          | Some inner => (Return inner, s1, t1)
          | None =>
              let attempts := attempts + 1 in
              if (0 <? MaxRetries config) && (MaxRetries config <=? attempts)
              then (Return (Some e), s1, t1)
              else if (0 <? MaxElapsedTime config)
                      && (MaxElapsedTime config <=? since env attempts)
              then (Return (Some e), s1, t1)
              else
                let nextInterval :=
                  computeNextInterval config currentInterval
                                      (rnd env attempts) in
                let '(r, s2, t2) :=
                  Retry_loop fuel' attempts nextInterval s1 in
                (r, s2, t1 ++ EvSleep currentInterval :: t2)
          end
      end
  end.
End RetryLoop.

Definition Retry {St : Type} (fn : RetryableFunc St) (opts : list Option)
  (env : Env) (fuel : nat) (s : St) : Result * St * list Event :=
  let config := applyOptions opts defaultConfig in
  Retry_loop fn config env fuel 0 (InitialInterval config) s.

(** ** Retry as printed in retry.go:68-110: the same loop without the
       permanent-error check *)

Module Legacy.
Section RetryLoop.
Context {St : Type}.
Variable fn : RetryableFunc St.
Variable config : RetryConfig.
Variable env : Env.

Fixpoint Retry_loop (fuel : nat) (attempts : Z) (currentInterval : Duration)
  (s : St) : Result * St * list Event :=
  match fuel with
  | O => (OutOfFuel, s, [])
  | S fuel' =>
      let '(err, s1, t1) := fn s in
      match err with
      | None => (Return None, s1, t1)
      | Some e =>
          let attempts := attempts + 1 in
          if (0 <? MaxRetries config) && (MaxRetries config <=? attempts)
          then (Return (Some e), s1, t1)
          else if (0 <? MaxElapsedTime config)
                  && (MaxElapsedTime config <=? since env attempts)
          then (Return (Some e), s1, t1)
          else
            let nextInterval :=
              computeNextInterval config currentInterval
                                  (rnd env attempts) in
            let '(r, s2, t2) :=
              Retry_loop fuel' attempts nextInterval s1 in
            (r, s2, t1 ++ EvSleep currentInterval :: t2)
      end
  end.
End RetryLoop.

Definition Retry {St : Type} (fn : RetryableFunc St) (opts : list Option)
  (env : Env) (fuel : nat) (s : St) : Result * St * list Event :=
  let config := applyOptions opts defaultConfig in
  Retry_loop fn config env fuel 0 (InitialInterval config) s.
End Legacy.

(** The value of [currentInterval] when the [k]-th failure is handled
    ([k >= 1]): the initial interval at the first failure, afterwards the
    [nextInterval] stored at the failure before. *)
Fixpoint currentIntervalAt (config : RetryConfig) (env : Env) (k : nat)
  : Duration :=
  match k with
  | O | S O => InitialInterval config
  | S k' =>
      computeNextInterval config (currentIntervalAt config env k')
                          (rnd env (Z.of_nat k'))
  end.


(** The events of a run of the loop that makes the invocations [rs], entered
    with the counter at [attempts] and the current interval [cur]: every
    invocation but the last is followed by a sleep of the interval current
    at that moment. *)
Fixpoint schedule (config : RetryConfig) (env : Env) (attempts : Z)
  (cur : Duration) (rs : list (option error)) : list Event :=
  match rs with
  | [] => []
  | r :: rs' =>
      EvCall r ::
      match rs' with
      | [] => []
      | _ :: _ =>
          EvSleep cur ::
          schedule config env (attempts + 1)
                   (computeNextInterval config cur (rnd env (attempts + 1)))
                   rs'
      end
  end.

(** An operation that fails with [e1], then with [e2], then succeeds; its
    state counts the invocations made. *)
Definition failTwice (e1 e2 : error) (n : nat) : option error * nat :=
  match n with
  | O => (Some e1, 1%nat)
  | S O => (Some e2, 2%nat)
  | S (S _) => (None, S n)
  end.

(** An operation that fails with [e] every time. *)
Definition failAlways (e : error) (n : nat) : option error * nat :=
  (Some e, S n).

(** The policy of the scenario: initial delay 10ms, at most 3 attempts,
    multiplier 2.0, no jitter. *)
Definition scenarioOpts : list Option :=
  [Initial (10 * Millisecond); Tries 3; Multiplier_ 2%Q; Jitter 0%Q].

(** ** Helpers (helpers.go) *)

(** The state of a [context.Context]: [ctx.Done()] is closed exactly when
    [ctx.Err()] is not nil. *)
Inductive ctxState : Type := ctxActive | ctxCanceled | ctxDeadline.

Definition ctx_Err (c : ctxState) : option error :=
  match c with
  | ctxActive => None
  | ctxCanceled => Some Canceled
  | ctxDeadline => Some DeadlineExceeded
  end.

(** helpers.go:21-30.  [ctx] gives the state of the context in a program
    state. *)
Definition RetryWithContext {St : Type} (ctx : St -> ctxState)
  (fn : RetryableFunc St) (opts : list Option) (env : Env) (fuel : nat)
  (s : St) : Result * St * list Event :=
  Retry (fun s =>
           match ctx_Err (ctx s) with
           | Some e => (Some e, s, [])
           | None => fn s
           end) opts env fuel s.

(** [%d] *)
Definition itoa (n : Z) : string := NilZero.string_of_int (Z.to_int n).

(** [logger.Printf("Attempt %d failed: %v", attempt, err)] *)
Definition failedLine (attempt : Z) (err : error) : string :=
  ("Attempt " ++ itoa attempt ++ " failed: " ++ Error err)%string.

(** helpers.go:42-52.  The closure's counter [attempt] is paired with the
    program state. *)
Definition RetryWithLogging {St : Type} (fn : RetryableFunc St)
  (opts : list Option) (env : Env) (fuel : nat) (s : St)
  : Result * St * list Event :=
  let attempt := 0 in
  let '(r, (_, s'), t) :=
    Retry (fun '(attempt, s) =>
             let attempt := attempt + 1 in
             let '(err, s1, t1) := fn s in
             match err with
             | Some e => (err, (attempt, s1), t1 ++ [EvLog (failedLine attempt e)])
             | None => (err, (attempt, s1), t1)
             end) opts env fuel (attempt, s) in
  (r, s', t).

(** helpers.go:73-82 *)
Definition RetryWithCondition {St : Type} (fn : RetryableFunc St)
  (condition : error -> bool) (opts : list Option) (env : Env) (fuel : nat)
  (s : St) : Result * St * list Event :=
  Retry (fun s =>
           let '(err, s1, t1) := fn s in
           match err with
           | Some e =>
               if negb (condition e)
               then (Some (permanentError (Some e)), s1, t1)
               else (err, s1, t1)
           | None => (err, s1, t1)
           end) opts env fuel s.

(** The log lines for the invocations [rs], the closure's counter being at
    [attempt] before the first of them: one line for each failed
    invocation, carrying its number. *)
Fixpoint failedLines (attempt : Z) (rs : list (option error)) : list string :=
  match rs with
  | [] => []
  | r :: rs' =>
      match r with
      | Some e => [failedLine (attempt + 1) e]
      | None => []
      end ++ failedLines (attempt + 1) rs'
  end.

(** The log as the specification words it: a line for every failed attempt
    except the final attempt of the run. *)
Definition specifiedLines (rs : list (option error)) : list string :=
  failedLines 0 (removelast rs).

(** The wall clock standing still and the random source stuck at 0. *)
Definition env0 : Env := mkEnv (fun _ => 0) (fun _ => 0%Q).

(** ** Iterators (iter.go)

    [func(yield func(a Attempt) bool)]: a push iterator.  The consumer's
    loop body is the [yield] function; it acts on the consumer's state [C]
    and answers whether to go on.  The iterator reports whether it ran to
    its end ([true]) or the fuel ran out first ([false]). *)

Definition Yield (C : Type) : Type := Attempt -> C -> bool * C * list Event.
Definition Seq : Type := forall C : Type, Yield C -> C -> bool * C * list Event.

(** A sequence that yields nothing. *)
Definition emptySeq : Seq := fun C yield c => (true, c, []).

(** A caller's callback given by its effect on the state; each run is
    recorded. *)
Definition invokeWith {St : Type} (op : Attempt -> St -> option error * St)
  : Attempt -> Action St (option error) :=
  fun a s => let (r, s') := op a s in (r, s', [EvCall r]).

(** *** The revision typed [func(func(a Attempt) bool)]
        (src/unnamed/part_008:441-633) *)

Module IterFunc.
Section AttemptsLoop.
Variable config : RetryConfig.
Variable env : Env.
Context {C : Type}.
Variable yield : Yield C.

(** The [for { ... }] loop of [Attempts]; [lastError] is declared and
    never assigned, so every attempt carries [nil]. *)
Fixpoint Attempts_loop (fuel : nat) (attempts : Z)
  (currentDelay nextInterval : Duration) (c : C)
  : bool * C * list Event :=
  match fuel with
  | O => (false, c, [])
  | S fuel' =>
      let attempts := attempts + 1 in
      let elapsed := since env attempts in
      let stop :=
        if 1 <? attempts then
          if (0 <? MaxRetries config) && (MaxRetries config <? attempts)
          then true
          else (0 <? MaxElapsedTime config)
               && (MaxElapsedTime config <=? elapsed)
        else false in
      if stop then (true, c, [])
      else
        let attempt :=
          {| Number := attempts; Delay := currentDelay; Elapsed := elapsed;
             LastError := None; Context := Background |} in
        let t0 := if 0 <? currentDelay then [EvSleep currentDelay] else [] in
        let '(more, c1, t1) := yield attempt c in
        if negb more then (true, c1, t0 ++ EvYield attempt :: t1)
        else
          let currentDelay := nextInterval in
          let nextInterval :=
            computeNextInterval config nextInterval (rnd env attempts) in
          let '(fin, c2, t2) :=
            Attempts_loop fuel' attempts currentDelay nextInterval c1 in
          (fin, c2, t0 ++ EvYield attempt :: t1 ++ t2)
  end.
End AttemptsLoop.

Definition Attempts (opts : list Option) (env : Env) (fuel : nat) : Seq :=
  fun C yield c =>
    let config := applyOptions opts defaultConfig in
    Attempts_loop config env yield fuel 0 0 (InitialInterval config) c.

(** The state of [DoWithAttempts]'s loop body: the local [finalErr], the
    value of a [return] executed inside the body (if any), and the
    callback's program state. *)
Record DoState (St : Type) : Type := mkDoState {
  finalErr : option error;
  returned : option (option error);
  prog : St
}.
Arguments mkDoState {St}.
Arguments finalErr {St}.
Arguments returned {St}.
Arguments prog {St}.

(** The body of [for attempt := range ...] in [DoWithAttempts].  The
    assignment [attempt.LastError = err] writes to the record that was
    yielded; the iterator never reads it again, so it does not show in the
    run. *)
Definition DoWithAttempts_body {St : Type}
  (fn : Attempt -> Action St (option error)) : Yield (DoState St) :=
  fun attempt st =>
    let '(err, s1, t1) := fn attempt (prog st) in
    match err with
    | None => (false, mkDoState (finalErr st) (Some None) s1, t1)
    | Some e =>
        match errors_As_permanent e with
        | Some inner => (false, mkDoState (finalErr st) (Some inner) s1, t1)
        | None => (true, mkDoState (Some e) None s1, t1)
        end
    end.

(** [DoWithAttempts] with the sequence it ranges over as a parameter. *)
Definition DoWithAttemptsOver {St : Type} (seq : Seq)
  (fn : Attempt -> Action St (option error)) (s : St)
  : Result * St * list Event :=
  let '(fin, st, t) :=
    seq (DoState St) (DoWithAttempts_body fn) (mkDoState None None s) in
  match returned st with
  | Some r => (Return r, prog st, t)
  | None => if fin then (Return (finalErr st), prog st, t)
            else (OutOfFuel, prog st, t)
  end.

Definition DoWithAttempts {St : Type}
  (fn : Attempt -> Action St (option error)) (opts : list Option) (env : Env)
  (fuel : nat) (s : St) : Result * St * list Event :=
  DoWithAttemptsOver (Attempts opts env fuel) fn s.
End IterFunc.

(** *** The revision typed [iter.Seq] (src/unnamed/part_008:176-440) *)

Module IterSeq.

(** Modelled from the spec: the constants [defaultInitialInterval],
    [defaultMaxInterval], [defaultMaxRetries], [defaultMultiplier],
    [defaultMaxElapsedTime] and [defaultRandomizeFactor] that this revision
    names are not in the source; the values are the defaults the spec
    lists (500ms, 30s, 10, 2.0, 5min, 0.5). *)
Definition defaults : RetryConfig := defaultConfig.

Section AttemptsLoop.
(** [getNextInterval(currentInterval, config.RandomizeFactor)] is not in
    the source; it is a parameter, with the round as the stand-in for
    the random source it reads. *)
Variable getNextInterval : Z -> Duration -> float64 -> Duration.
Variable config : RetryConfig.
Variable env : Env.
Context {C : Type}.
Variable yield : Yield C.

(** [for i := 0; ; i++ { ... }] *)
Fixpoint Attempts_loop (fuel : nat) (i : Z)
  (currentInterval elapsed : Duration) (c : C) : bool * C * list Event :=
  match fuel with
  | O => (false, c, [])
  | S fuel' =>
      if (0 <? MaxRetries config) && (MaxRetries config <=? i)
      then (true, c, [])
      else if (0 <? MaxElapsedTime config)
              && (MaxElapsedTime config <? elapsed)
      then (true, c, [])
      else
        let attempt :=
          {| Number := i + 1;
             Delay := if i =? 0 then 0 else currentInterval;
             Elapsed := elapsed; LastError := None;
             Context := Background |} in
        let '(elapsed, t0) :=
          if 0 <? i
          then (since env (i + 1), [EvSleep currentInterval])
          else (elapsed, []) in
        let '(more, c1, t1) := yield attempt c in
        if negb more then (true, c1, t0 ++ EvYield attempt :: t1)
        else
          let currentInterval :=
            if float_pos (Multiplier config)
            then Duration_of_float64
                   (float64_of_Duration currentInterval * Multiplier config)%Q
            else currentInterval in
          let currentInterval :=
            if MaxInterval config <? currentInterval
            then MaxInterval config else currentInterval in
          let currentInterval :=
            if float_pos (RandomizeFactor config)
            then getNextInterval (i + 1) currentInterval
                                 (RandomizeFactor config)
            else currentInterval in
          let '(fin, c2, t2) :=
            Attempts_loop fuel' (i + 1) currentInterval elapsed c1 in
          (fin, c2, t0 ++ EvYield attempt :: t1 ++ t2)
  end.
End AttemptsLoop.

Definition Attempts (getNextInterval : Z -> Duration -> float64 -> Duration)
  (opts : list Option) (env : Env) (fuel : nat) : Seq :=
  fun C yield c =>
    let config := applyOptions opts defaults in
    Attempts_loop getNextInterval config env yield fuel 0
                  (InitialInterval config) 0 c.

Record DoState (St : Type) : Type := mkDoState {
  lastErr : option error;
  returned : option (option error);
  prog : St
}.
Arguments mkDoState {St}.
Arguments lastErr {St}.
Arguments returned {St}.
Arguments prog {St}.

(** The body of [for attempt := range ...] in [DoWithAttempts].  The
    assignment [attempt.LastError = err] writes to the record that was
    yielded; the iterator never reads it again, so it does not show in the
    run. *)
Definition DoWithAttempts_body {St : Type}
  (fn : Attempt -> Action St (option error)) : Yield (DoState St) :=
  fun attempt st =>
    let '(err, s1, t1) := fn attempt (prog st) in
    match err with
    | None => (false, mkDoState (lastErr st) (Some None) s1, t1)
    | Some e =>
        let lastErr := Some e in
        match errors_As_permanent e with
        | Some inner => (false, mkDoState lastErr (Some inner) s1, t1)
        | None => (true, mkDoState lastErr None s1, t1)
        end
    end.

(** [errors.New("all retry attempts failed")] *)
Definition exhausted : error := errorString "all retry attempts failed".

(** [DoWithAttempts] with the sequence it ranges over as a parameter. *)
Definition DoWithAttemptsOver {St : Type} (seq : Seq)
  (fn : Attempt -> Action St (option error)) (s : St)
  : Result * St * list Event :=
  let '(fin, st, t) :=
    seq (DoState St) (DoWithAttempts_body fn) (mkDoState None None s) in
  match returned st with
  | Some r => (Return r, prog st, t)
  | None =>
      if fin then
        match lastErr st with
        | Some e => (Return (Some e), prog st, t)
        | None => (Return (Some exhausted), prog st, t)
        end
      else (OutOfFuel, prog st, t)
  end.

Definition DoWithAttempts {St : Type}
  (getNextInterval : Z -> Duration -> float64 -> Duration)
  (fn : Attempt -> Action St (option error)) (opts : list Option) (env : Env)
  (fuel : nat) (s : St) : Result * St * list Event :=
  DoWithAttemptsOver (Attempts getNextInterval opts env fuel) fn s.
End IterSeq.

(** What a driver makes of the result of one callback run: success stays
    success, a marked error is replaced by the error inside the marker,
    any other error is kept. *)
Definition outcome (r : option error) : option error :=
  match r with
  | None => None
  | Some e =>
      match errors_As_permanent e with
      | Some inner => inner
      | None => Some e
      end
  end.

(** A callback result after which the drivers go on: an error without the
    marker. *)
Definition retryable (r : option error) : Prop :=
  exists e, r = Some e /\ errors_As_permanent e = None.

(** The first attempt of the two revisions of [Attempts]. *)
Definition firstAttempt (elapsed : Duration) : Attempt :=
  {| Number := 1; Delay := 0; Elapsed := elapsed; LastError := None;
     Context := Background |}.

(** A callback that fails every time with an error naming the attempt. *)
Definition failNumbered (a : Attempt) (n : nat) : option error * nat :=
  (Some (errorString ("fail " ++ itoa (Number a))), S n).

(** * Further functions of the package *)

(** ** RetryWithBackoff and QuickRetry (retry.go) *)

(** [time.Duration(math.Min(float64(backoff*2), float64(maxBackoff)))];
    [backoff] never exceeds [maxBackoff], so [backoff*2] stays far from the
    [int64] range. *)
Definition nextBackoff (backoff maxBackoff : Duration) : Duration :=
  Duration_of_float64
    (Qmin (float64_of_Duration (backoff * 2)) (float64_of_Duration maxBackoff)).

Section RetryWithBackoffLoop.
Context {St : Type}.
Variable fn : RetryableFunc St.
Variable maxRetries : Z.
Variable maxBackoff : Duration.

(** [for i := range maxRetries { ... }]: [n] is the number of iterations
    left, [i] the loop variable.  When the iterations are used up the
    function falls through to its final [return nil]. *)
Fixpoint RetryWithBackoff_loop (n : nat) (i : Z) (backoff : Duration) (s : St)
  : option error * St * list Event :=
  match n with
  | O => (None, s, [])
  | S n' =>
      let '(err, s1, t1) := fn s in
      match err with
      | None => (None, s1, t1)
      | Some e =>
          if i =? maxRetries - 1 then (Some e, s1, t1)
          else
            let '(r, s2, t2) :=
              RetryWithBackoff_loop n' (i + 1)
                                    (nextBackoff backoff maxBackoff) s1 in
            (r, s2, t1 ++ EvSleep backoff :: t2)
      end
  end.
End RetryWithBackoffLoop.

(** retry.go:124-140 *)
Definition RetryWithBackoff {St : Type} (fn : RetryableFunc St)
  (maxRetries : Z) (s : St) : option error * St * list Event :=
  let backoff := 100 * Millisecond in
  let maxBackoff := 10 * Second in
  RetryWithBackoff_loop fn maxRetries maxBackoff (Z.to_nat maxRetries) 0
                        backoff s.

(** The options that [QuickRetry] passes (helpers_test.go:348-356; the
    revision in retry.go:113-121 passes the same values through the [With*]
    options). *)
Definition quickOpts : list Option :=
  [Initial (100 * Millisecond); Max (5 * Second); Tries 5;
   Multiplier_ 2%Q; Jitter (3 # 10)].

Definition QuickRetry {St : Type} (fn : RetryableFunc St) (env : Env)
  (fuel : nat) (s : St) : Result * St * list Event :=
  Retry fn quickOpts env fuel s.

(** A trace without its log lines. *)
Definition unlogged (t : list Event) : list Event :=
  filter (fun e => match e with EvLog _ => false | _ => true end) t.

(** The [k]-th value of [backoff] in [RetryWithBackoff]: it starts at
    [backoff] and is advanced by [nextBackoff]. *)
Fixpoint backoffAt (backoff maxBackoff : Duration) (k : nat) : Duration :=
  match k with
  | O => backoff
  | S k' => nextBackoff (backoffAt backoff maxBackoff k') maxBackoff
  end.

(** Two configurations that differ in every field. *)
Definition configZeros : RetryConfig := mkRetryConfig 0 0 0 0%Q 0 0%Q.
Definition configOnes : RetryConfig := mkRetryConfig 1 1 1 1%Q 1 1%Q.


(** ** The iterators with a context (iter.go) *)

(** [attempt.Context = ctx] *)
Definition withCallerContext (a : Attempt) : Attempt :=
  {| Number := Number a; Delay := Delay a; Elapsed := Elapsed a;
     LastError := LastError a; Context := CallerContext |}.

Definition yielded (t : list Event) : list Attempt :=
  flat_map (fun e => match e with EvYield a => [a] | _ => [] end) t.

(** *** The revision typed [func(func(a Attempt) bool)]
        (src/unnamed/part_008:551-567 and 608-628).  The context's state is
        read from the consumer's state. *)
Module IterFuncContext.

(** The function that [AttemptsWithContext] passes to the base iterator:
    [select { case <-ctx.Done(): ...; return false;
              default: attempt.Context = ctx; return yield(attempt) }]. *)
Definition guardedYield {C : Type} (ctx : C -> ctxState) (yield : Yield C)
  : Yield C :=
  fun attempt c =>
    match ctx_Err (ctx c) with
    | Some _ => (false, c, [])
    | None => yield (withCallerContext attempt) c
    end.

Definition AttemptsWithContext {C : Type} (ctx : C -> ctxState)
  (opts : list Option) (env : Env) (fuel : nat) (yield : Yield C) (c : C)
  : bool * C * list Event :=
  IterFunc.Attempts opts env fuel C (guardedYield ctx yield) c.

Definition DoWithAttemptsContext {St : Type} (ctx : St -> ctxState)
  (fn : Attempt -> Action St (option error)) (opts : list Option) (env : Env)
  (fuel : nat) (s : St) : Result * St * list Event :=
  let '(fin, st, t) :=
    AttemptsWithContext (fun st => ctx (IterFunc.prog st)) opts env fuel
      (IterFunc.DoWithAttempts_body fn) (IterFunc.mkDoState None None s) in
  match IterFunc.returned st with
  | Some r => (Return r, IterFunc.prog st, t)
  | None => if fin then (Return (IterFunc.finalErr st), IterFunc.prog st, t)
            else (OutOfFuel, IterFunc.prog st, t)
  end.
End IterFuncContext.

(** *** The revision typed [iter.Seq]
        (src/unnamed/part_008:292-371 and 414-440) *)
Module IterSeqContext.
Section AttemptsLoop.
Variable getNextInterval : Z -> Duration -> float64 -> Duration.
Context {C : Type}.
(** The state of the context in a consumer state, and what happens to the
    consumer state while round [i] waits (another goroutine may cancel the
    context): [select] takes [ctx.Done()] when the context is done by the
    end of the wait, otherwise the timer. *)
Variable ctx : C -> ctxState.
Variable wait : Z -> C -> C.
Variable config : RetryConfig.
Variable env : Env.
Variable yield : Yield C.

Fixpoint Attempts_loop (fuel : nat) (i : Z)
  (currentInterval elapsed : Duration) (c : C) : bool * C * list Event :=
  match fuel with
  | O => (false, c, [])
  | S fuel' =>
      match ctx_Err (ctx c) with
      | Some _ => (true, c, [])
      | None =>
          if (0 <? MaxRetries config) && (MaxRetries config <=? i)
          then (true, c, [])
          else if (0 <? MaxElapsedTime config)
                  && (MaxElapsedTime config <? elapsed)
          then (true, c, [])
          else
            let attempt :=
              {| Number := i + 1;
                 Delay := if i =? 0 then 0 else currentInterval;
                 Elapsed := elapsed; LastError := None;
                 Context := CallerContext |} in
            let waited := if 0 <? i then wait i c else c in
            let interrupted :=
              if 0 <? i
              then match ctx_Err (ctx waited) with
                   | Some _ => true
                   | None => false
                   end
              else false in
            if interrupted then (true, waited, [])
            else
              let '(elapsed, t0) :=
                if 0 <? i
                then (since env (i + 1), [EvSleep currentInterval])
                else (elapsed, []) in
              let '(more, c1, t1) := yield attempt waited in
              if negb more then (true, c1, t0 ++ EvYield attempt :: t1)
              else
                let currentInterval :=
                  if float_pos (Multiplier config)
                  then Duration_of_float64
                         (float64_of_Duration currentInterval
                          * Multiplier config)%Q
                  else currentInterval in
                let currentInterval :=
                  if MaxInterval config <? currentInterval
                  then MaxInterval config else currentInterval in
                let currentInterval :=
                  if float_pos (RandomizeFactor config)
                  then getNextInterval (i + 1) currentInterval
                                       (RandomizeFactor config)
                  else currentInterval in
                let '(fin, c2, t2) :=
                  Attempts_loop fuel' (i + 1) currentInterval elapsed c1 in
                (fin, c2, t0 ++ EvYield attempt :: t1 ++ t2)
      end
  end.
End AttemptsLoop.

Definition AttemptsWithContext
  (getNextInterval : Z -> Duration -> float64 -> Duration) {C : Type}
  (ctx : C -> ctxState) (wait : Z -> C -> C) (opts : list Option) (env : Env)
  (fuel : nat) (yield : Yield C) (c : C) : bool * C * list Event :=
  let config := applyOptions opts IterSeq.defaults in
  Attempts_loop getNextInterval ctx wait config env yield fuel 0
                (InitialInterval config) 0 c.

Definition DoWithAttemptsContext {St : Type}
  (getNextInterval : Z -> Duration -> float64 -> Duration)
  (ctx : St -> ctxState) (wait : Z -> St -> St)
  (fn : Attempt -> Action St (option error)) (opts : list Option) (env : Env)
  (fuel : nat) (s : St) : Result * St * list Event :=
  let '(fin, st, t) :=
    AttemptsWithContext getNextInterval
      (fun st => ctx (IterSeq.prog st))
      (fun i st => IterSeq.mkDoState (IterSeq.lastErr st)
                                     (IterSeq.returned st)
                                     (wait i (IterSeq.prog st)))
      opts env fuel
      (IterSeq.DoWithAttempts_body fn) (IterSeq.mkDoState None None s) in
  match IterSeq.returned st with
  | Some r => (Return r, IterSeq.prog st, t)
  | None =>
      if fin then
        match ctx_Err (ctx (IterSeq.prog st)) with
        | Some e => (Return (Some e), IterSeq.prog st, t)
        | None =>
            match IterSeq.lastErr st with
            | Some e => (Return (Some e), IterSeq.prog st, t)
            | None => (Return (Some IterSeq.exhausted), IterSeq.prog st, t)
            end
        end
      else (OutOfFuel, IterSeq.prog st, t)
  end.
End IterSeqContext.

(** A context that is done once the callback has run at least once. *)
Definition doneAfterFirstRun (n : nat) : ctxState :=
  if Nat.leb 1 n then ctxCanceled else ctxActive.

(** What holds of the attempts yielded by a loop entered with the counter
    at [from]: they are numbered [from + 1], [from + 2], ..., none carries a
    previous error, and under a cap [n > 0] there are at most [n - from] of
    them. *)
Definition numberedFrom (config : RetryConfig) (from : Z) (l : list Attempt)
  : Prop :=
  map Number l = map (fun k => from + Z.of_nat k) (seq 1 (List.length l)) /\
  Forall (fun a => LastError a = None) l /\
  (0 < MaxRetries config -> 0 <= from ->
   Z.of_nat (List.length l) <= Z.max 0 (MaxRetries config - from)).


(** ** HTTP helpers (helpers.go:97-190) *)

(** [http.Header], a [map[string][]string]: what each key is bound to. *)
Definition HttpHeader : Type := string -> option (list string).

(** [make(http.Header)] *)
Definition emptyHeader : HttpHeader := fun _ => None.

(** What this package reads and sets of an [http.Response]. *)
Record Response : Type := mkResponse {
  StatusCode : Z;
  Header : HttpHeader
}.

(** [r.StatusCode >= 500 || r.StatusCode == 429] *)
Definition retryableStatus (code : Z) : bool :=
  (500 <=? code) || (code =? 429).

(** [fmt.Errorf("retryable status: %d", code)] *)
Definition retryableStatusError (code : Z) : error :=
  errorString ("retryable status: " ++ itoa code).

(** [client.Do(req)] and [transport.RoundTrip(req)]: a response or an
    error, and the new program state. *)
Definition Doer (St : Type) : Type := St -> (Response + error) * St.

(** The closure of [HTTPDo] (helpers.go:173-187); the captured variable
    [resp] is paired with the program state.  [EvCall] records what the
    closure returned. *)
Definition HTTPDo_closure {St : Type} (do : Doer St)
  : RetryableFunc (option Response * St) :=
  fun '(resp, s) =>
    let (res, s1) := do s in
    match res with
    | inr err => (Some err, (resp, s1), [EvCall (Some err)])
    | inl r =>
        if retryableStatus (StatusCode r)
        then (Some (retryableStatusError (StatusCode r)), (resp, s1),
              [EvCall (Some (retryableStatusError (StatusCode r)))])
        else (None, (Some r, s1), [EvCall None])
    end.

(** helpers.go:167-190: returns [resp, err]. *)
Definition HTTPDo {St : Type} (do : Doer St) (opts : list Option) (env : Env)
  (fuel : nat) (s : St) : option Response * Result * St * list Event :=
  let '(err, (resp, s'), t) :=
    Retry (HTTPDo_closure do) opts env fuel (None, s) in
  (resp, err, s', t).

(** The closure of [HTTPRetryTransport.RoundTrip] (helpers.go:111-125):
    [resp = r] is assigned before the status is looked at. *)
Definition RoundTrip_closure {St : Type} (do : Doer St)
  : RetryableFunc (option Response * St) :=
  fun '(resp, s) =>
    let (res, s1) := do s in
    match res with
    | inr err => (Some err, (resp, s1), [EvCall (Some err)])
    | inl r =>
        if retryableStatus (StatusCode r)
        then (Some (retryableStatusError (StatusCode r)), (Some r, s1),
              [EvCall (Some (retryableStatusError (StatusCode r)))])
        else (None, (Some r, s1), [EvCall None])
    end.

(** helpers.go:104-128, with the transport's options [t.Options]. *)
Definition RoundTrip {St : Type} (do : Doer St) (opts : list Option)
  (env : Env) (fuel : nat) (s : St)
  : option Response * Result * St * list Event :=
  let '(err, (resp, s'), t) :=
    Retry (RoundTrip_closure do) opts env fuel (None, s) in
  (resp, err, s', t).

(** A doer that also keeps, in the state, the list of what it returned. *)
Definition logged_doer {St : Type} (do : Doer St)
  : Doer (St * list (Response + error)) :=
  fun '(s, log) => let (res, s1) := do s in (res, (s1, log ++ [res])).

(** The last response in a list of results. *)
Fixpoint lastResponse (log : list (Response + error)) (d : option Response)
  : option Response :=
  match log with
  | [] => d
  | inl r :: log' => lastResponse log' (Some r)
  | inr _ :: log' => lastResponse log' d
  end.


(** A client or handler whose [k]-th call gives the [k]-th entry of
    [first :: script], and the last entry from then on; the state counts
    the calls. *)
Definition scripted {A : Type} (first : A) (script : list A)
  : nat -> A * nat :=
  fun n => (nth n (first :: script) (last script first), S n).


(** ** The retry middleware (http.go) *)

(** http.go:20-22 *)
Definition DefaultResponseChecker (resp : Response) : bool :=
  (500 <=? StatusCode resp) || (StatusCode resp =? 429).

(** What a handler does to the [http.ResponseWriter] it is given: change
    the map [Header()] returns, call [WriteHeader], call [Write]. *)
Inductive WriterOp : Type :=
| OpHeader (f : HttpHeader -> HttpHeader)
| OpWriteHeader (code : Z)
| OpWrite (b : list Byte.byte).

(** http.go:79-84 *)
Record responseRecorder : Type := mkResponseRecorder {
  Code : Z;
  Headers : HttpHeader;
  Body : list Byte.byte;
  wroteHeader : bool
}.

(** [http.StatusOK] *)
Definition StatusOK : Z := 200.

(** http.go:86-91 *)
Definition newResponseRecorder : responseRecorder :=
  {| Code := StatusOK; Headers := emptyHeader; Body := [];
     wroteHeader := false |}.

(** http.go:93-98 *)
Definition reset (r : responseRecorder) : responseRecorder :=
  {| Code := StatusOK; Headers := emptyHeader; Body := [];
     wroteHeader := false |}.

(** http.go:112-118 *)
Definition WriteHeader (code : Z) (r : responseRecorder) : responseRecorder :=
  if wroteHeader r then r
  else {| Code := code; Headers := Headers r; Body := Body r;
          wroteHeader := true |}.

(** http.go:104-110 *)
Definition Write (b : list Byte.byte) (r : responseRecorder)
  : responseRecorder :=
  let r := if negb (wroteHeader r) then WriteHeader StatusOK r else r in
  {| Code := Code r; Headers := Headers r; Body := Body r ++ b;
     wroteHeader := wroteHeader r |}.

(** http.go:120-125 *)
Definition recorder_Result (r : responseRecorder) : Response :=
  {| StatusCode := Code r; Header := Headers r |}.

(** One operation of a handler on the recorder. *)
Definition record (r : responseRecorder) (op : WriterOp) : responseRecorder :=
  match op with
  | OpHeader f =>
      {| Code := Code r; Headers := f (Headers r); Body := Body r;
         wroteHeader := wroteHeader r |}
  | OpWriteHeader code => WriteHeader code r
  | OpWrite b => Write b r
  end.

(** [for k, v := range from { to[k] = v }] *)
Definition copyHeaders (from to : HttpHeader) : HttpHeader :=
  fun k => match from k with
           | Some v => Some v
           | None => to k
           end.

(** http.go:127-140: what [writeTo] does to the writer [w]. *)
Definition writeTo (r : responseRecorder) : list WriterOp :=
  [OpHeader (copyHeaders (Headers r)); OpWriteHeader (Code r)]
  ++ (if (0 <? Z.of_nat (List.length (Body r))) then [OpWrite (Body r)]
      else []).

(** [next.ServeHTTP(w, r)]: the operations on the writer, and the new
    program state. *)
Definition Handler (St : Type) : Type := St -> list WriterOp * St.

(** http.go:17: whether a response asks for another attempt. *)
Definition ResponseChecker : Type := Response -> bool.

(** The closure of [ServeHTTP] (http.go:41-59); the recorder is paired with
    the program state. *)
Definition ServeHTTP_closure {St : Type} (next : Handler St)
  (checker : ResponseChecker) : RetryableFunc (responseRecorder * St) :=
  fun '(recorder, s) =>
    let recorder := reset recorder in
    let (ops, s1) := next s in
    let recorder := fold_left record ops recorder in
    let result := recorder_Result recorder in
    let shouldRetry := checker result in
    if shouldRetry
    then (Some (retryableStatusError (Code recorder)), (recorder, s1),
          [EvCall (Some (retryableStatusError (Code recorder)))])
    else (None, (recorder, s1), [EvCall None]).

(** http.go:37-69: what is done to [w], if [ServeHTTP] returns. *)
Definition ServeHTTP {St : Type} (next : Handler St)
  (checker : ResponseChecker) (opts : list Option) (env : Env) (fuel : nat)
  (s : St) : option (list WriterOp) * St * list Event :=
  let '(err, (recorder, s'), t) :=
    Retry (ServeHTTP_closure next checker) opts env fuel
          (newResponseRecorder, s) in
  match err with
  | Return (Some _) => (Some (writeTo recorder), s', t)
  | Return None => (Some (writeTo recorder), s', t)
  | OutOfFuel => (None, s', t)
  end.

(** A handler that also keeps, in the state, what it did on each run. *)
Definition logged_handler {St : Type} (next : Handler St)
  : Handler (St * list (list WriterOp)) :=
  fun '(s, log) => let (ops, s1) := next s in (ops, (s1, log ++ [ops])).

(** The status a sequence of operations gives a response: the code of the
    first [WriteHeader], unless a [Write] comes before it. *)
Fixpoint statusOf (ops : list WriterOp) : Z :=
  match ops with
  | [] => StatusOK
  | OpHeader _ :: ops' => statusOf ops'
  | OpWriteHeader code :: _ => code
  | OpWrite _ :: _ => StatusOK
  end.

(** The bytes written, in order. *)
Fixpoint bodyOf (ops : list WriterOp) : list Byte.byte :=
  match ops with
  | [] => []
  | OpWrite b :: ops' => b ++ bodyOf ops'
  | _ :: ops' => bodyOf ops'
  end.

(** The header map after the changes, starting from [h]. *)
Fixpoint headersOf (ops : list WriterOp) (h : HttpHeader) : HttpHeader :=
  match ops with
  | [] => h
  | OpHeader f :: ops' => headersOf ops' (f h)
  | _ :: ops' => headersOf ops' h
  end.

(** * Properties *)

(** ** Policy options *)

Lemma option_idempotent (o : OptionCall) (c : RetryConfig) :
  option_of o (option_of o c) = option_of o c.
Proof. destruct o; reflexivity. Qed.

(** Every option treats every field in one of two ways: it stores a value
    that does not depend on the configuration it is applied to, or it does
    not touch the field. *)
Lemma option_sets_or_leaves (o : OptionCall) (F : Field) :
  (exists v, sets (option_of o) F v) \/ leaves (option_of o) F.
Proof.
  destruct o, F;
    first [ right; intros c; reflexivity
          | left; eexists; intros c; compute; reflexivity ].
Qed.

Lemma applyOptions_two (o1 o2 : Option) (c : RetryConfig) :
  applyOptions [o1; o2] c = o2 (o1 c).
Proof. reflexivity. Qed.

(** C8: every option of the vocabulary is idempotent; each one either sets
    a field to a fixed value or leaves it alone; when two options set the
    same field, the field ends up with the value of the one applied last;
    and [Tries n] after the preset [Database] gives [MaxRetries = n] while
    the preset's other five fields stay. *)
Theorem options_idempotent_last_wins :
  (forall o c, option_of o (option_of o c) = option_of o c) /\
  (forall o F, (exists v, sets (option_of o) F v) \/ leaves (option_of o) F) /\
  (forall o1 o2 F v1 v2,
      sets (option_of o1) F v1 -> sets (option_of o2) F v2 ->
      forall c, field F (applyOptions [option_of o1; option_of o2] c) = v2) /\
  (forall n c,
      applyOptions [Database; Tries n] c =
      {| InitialInterval := 1 * Second; MaxInterval := 30 * Second;
         MaxRetries := n; Multiplier := 2%Q;
         MaxElapsedTime := 2 * Minute; RandomizeFactor := 1 # 2 |}).
Proof.
  split; [exact option_idempotent|].
  split; [exact option_sets_or_leaves|].
  split.
  - intros o1 o2 F v1 v2 _ H2 c. rewrite applyOptions_two. apply H2.
  - intros n c. reflexivity.
Qed.

Lemma options_idempotent_last_wins_witness :
  field FMaxRetries
        (applyOptions [option_of CallDatabase; option_of (CallTries 50)]
                      defaultConfig) = VInt 50.
Proof.
  apply (proj1 (proj2 (proj2 options_idempotent_last_wins))
               CallDatabase (CallTries 50) FMaxRetries (VInt 10) (VInt 50)).
  - intros c. reflexivity.
  - intros c. reflexivity.
Defined.

(** ** Traces *)

Lemma invoke_eq {St : Type} (op : St -> option error * St) (s : St) :
  invoke op s = (fst (op s), snd (op s), [EvCall (fst (op s))]).
Proof. unfold invoke. destruct (op s); reflexivity. Qed.

(** ** Retry: one round of the loop *)

Section RetryRound.
Context {St : Type}.
Variable fn : RetryableFunc St.
Variable config : RetryConfig.
Variable env : Env.


Lemma Retry_loop_permanent fuel attempts cur s s1 t1 e inner :
  fn s = (Some e, s1, t1) ->
  errors_As_permanent e = Some inner ->
  Retry_loop fn config env (S fuel) attempts cur s = (Return inner, s1, t1).
Proof. intros H Hp. simpl. rewrite H, Hp. reflexivity. Qed.



End RetryRound.

(** ** Retry: permanent errors *)

Section RetryRuns.
Context {St : Type}.
Variable op : St -> option error * St.
Variable config : RetryConfig.
Variable env : Env.

Lemma Retry_loop_stops_at_permanent fuel :
  forall attempts cur s r s' t,
    Retry_loop (invoke op) config env fuel attempts cur s = (r, s', t) ->
    forall pre post e inner,
      calls t = pre ++ Some e :: post ->
      errors_As_permanent e = Some inner ->
      post = [] /\ r = Return inner.
Proof.
  induction fuel as [|fuel IH]; intros attempts cur s r s' t Hrun
    pre post e inner Hc Hp.
  - simpl in Hrun. inversion Hrun; subst. destruct pre; discriminate.
  - simpl in Hrun. rewrite invoke_eq in Hrun.
    destruct (fst (op s)) as [e0|].
    + destruct (errors_As_permanent e0) as [inner0|] eqn:Hp0.
      * inversion Hrun; subst. simpl in Hc.
        destruct pre as [|x pre]; inversion Hc; subst.
        -- split; [reflexivity | congruence].
        -- destruct pre; discriminate.
      * destruct (_ && _).
        { inversion Hrun; subst. simpl in Hc.
          destruct pre as [|x pre]; inversion Hc; subst;
            [congruence | destruct pre; discriminate]. }
        destruct (_ && _).
        { inversion Hrun; subst. simpl in Hc.
          destruct pre as [|x pre]; inversion Hc; subst;
            [congruence | destruct pre; discriminate]. }
        destruct (Retry_loop _ _ _ fuel _ _ _) as [[r2 s2] t2] eqn:Hrec.
        inversion Hrun; subst. simpl in Hc.
        destruct pre as [|x pre]; inversion Hc; subst; [congruence|].
        eapply IH; eauto.
    + inversion Hrun; subst. simpl in Hc.
      destruct pre as [|x pre]; inversion Hc; subst.
      destruct pre; discriminate.
Qed.
End RetryRuns.

(** C1: in any run of [Retry], an invocation that returns an error whose
    chain holds the [permanentError] marker is the last invocation, and the
    run returns the error inside the marker; when this happens at the first
    invocation the function has run exactly once. *)
Theorem Retry_permanent_error_stops :
  forall (St : Type) (op : St -> option error * St) (opts : list Option)
         (env : Env),
    (forall fuel s r s' t,
        Retry (invoke op) opts env fuel s = (r, s', t) ->
        forall pre post e inner,
          calls t = pre ++ Some e :: post ->
          errors_As_permanent e = Some inner ->
          post = [] /\ r = Return inner) /\
    (forall fuel s s1 e inner,
        op s = (Some e, s1) ->
        errors_As_permanent e = Some inner ->
        Retry (invoke op) opts env (S fuel) s
        = (Return inner, s1, [EvCall (Some e)])).
Proof.
  intros St op opts env. split.
  - intros fuel s r s' t Hrun. unfold Retry in Hrun.
    eapply Retry_loop_stops_at_permanent; eauto.
  - intros fuel s s1 e inner Hop Hp. unfold Retry.
    apply Retry_loop_permanent with (e := e); [|exact Hp].
    rewrite invoke_eq, Hop. reflexivity.
Qed.

(** A function that always fails with a marked error, under [Tries 5]. *)
Lemma Retry_permanent_error_stops_witness :
  Retry (invoke (fun s : unit =>
                   (Some (wrapError "call failed: auth"
                            (permanentError (Some (errorString "auth")))), s)))
        [Tries 5] (mkEnv (fun _ => 0) (fun _ => 0%Q)) 10 tt
  = (Return (Some (errorString "auth")), tt,
     [EvCall (Some (wrapError "call failed: auth"
                      (permanentError (Some (errorString "auth")))))]).
Proof.
  apply (proj2 (Retry_permanent_error_stops unit
                  (fun s : unit =>
                     (Some (wrapError "call failed: auth"
                              (permanentError (Some (errorString "auth")))), s))
                  [Tries 5] (mkEnv (fun _ => 0) (fun _ => 0%Q)))
               9%nat tt tt
               (wrapError "call failed: auth"
                  (permanentError (Some (errorString "auth"))))
               (Some (errorString "auth"))).
  - reflexivity.
  - reflexivity.
Defined.

(** The revision of [Retry] printed in retry.go has no such check: the
    marked error is retried like any other and comes back wrapped. *)
Lemma Legacy_Retry_retries_permanent :
  Legacy.Retry (invoke (fun s : unit =>
                   (Some (permanentError (Some (errorString "auth"))), s)))
        [Tries 2; Initial 1; NoJitter] (mkEnv (fun _ => 0) (fun _ => 0%Q)) 10 tt
  = (Return (Some (permanentError (Some (errorString "auth")))), tt,
     [EvCall (Some (permanentError (Some (errorString "auth"))));
      EvSleep 1;
      EvCall (Some (permanentError (Some (errorString "auth"))))]).
Proof. vm_compute. reflexivity. Qed.

(** [RetryWithCondition]: an error the predicate rejects is marked, so the
    function runs once and its own error comes back. *)
Lemma RetryWithCondition_rejected_runs_once {St : Type}
  (op : St -> option error * St) (condition : error -> bool)
  (opts : list Option) (env : Env) (fuel : nat) (s s1 : St) (e : error) :
  op s = (Some e, s1) ->
  condition e = false ->
  RetryWithCondition (invoke op) condition opts env (S fuel) s
  = (Return (Some e), s1, [EvCall (Some e)]).
Proof.
  intros Hop Hc. unfold RetryWithCondition, Retry.
  apply Retry_loop_permanent with (e := permanentError (Some e));
    [|reflexivity].
  rewrite invoke_eq, Hop. simpl. rewrite Hc. reflexivity.
Qed.

(** ** Retry: the attempt and time budgets *)

Lemma andb_max_retries_false (n attempts : Z) :
  0 < n -> (0 <? n) && (n <=? attempts) = false -> attempts < n.
Proof.
  intros Hn H. apply andb_false_iff in H.
  destruct H as [H|H]; [apply Z.ltb_ge in H | apply Z.leb_gt in H]; lia.
Qed.

(** One script for both revisions of the loop: the number of invocations
    left is bounded by the attempts left. *)
Ltac calls_bound_script op IH Hn :=
  let Hstop := fresh "Hstop" in
  let r2 := fresh "r" in
  let s2 := fresh "s" in
  let t2 := fresh "t" in
  simpl; rewrite invoke_eq;
  match goal with |- context [fst (op ?s)] => destruct (fst (op s)) end;
  [ try (match goal with
         | |- context [errors_As_permanent ?e] =>
             destruct (errors_As_permanent e)
         end; [simpl; lia|]);
    match goal with
    | |- context [(0 <? ?n) && (?n <=? ?a)] =>
        destruct ((0 <? n) && (n <=? a)) eqn:Hstop;
        [simpl; lia | apply (andb_max_retries_false _ _ Hn) in Hstop]
    end;
    match goal with
    | |- context [if ?b then _ else _] => destruct b; [simpl; lia|]
    end;
    match goal with
    | |- context [Retry_loop _ _ _ ?f ?a ?c ?s] =>
        specialize (IH a c s Hstop);
        destruct (Retry_loop _ _ _ f a c s) as [[r2 s2] t2]
    | |- context [Legacy.Retry_loop _ _ _ ?f ?a ?c ?s] =>
        specialize (IH a c s Hstop);
        destruct (Legacy.Retry_loop _ _ _ f a c s) as [[r2 s2] t2]
    end;
    simpl in *; lia
  | simpl; lia ].

Section RetryBudget.
Context {St : Type}.
Variable op : St -> option error * St.
Variable config : RetryConfig.
Variable env : Env.
Hypothesis Hn : 0 < MaxRetries config.

Lemma Retry_loop_calls_bound fuel :
  forall attempts cur s,
    attempts < MaxRetries config ->
    Z.of_nat (List.length (calls (snd
      (Retry_loop (invoke op) config env fuel attempts cur s))))
    <= MaxRetries config - attempts.
Proof.
  induction fuel as [|fuel IH]; intros attempts cur s Ha.
  - simpl. lia.
  - calls_bound_script op IH Hn.
Qed.

End RetryBudget.

(** The same for termination: with [n] attempts left, [n] rounds suffice. *)
Ltac returns_script op IH Hn :=
  let Hstop := fresh "Hstop" in
  let r2 := fresh "r" in
  let s2 := fresh "s" in
  let t2 := fresh "t" in
  simpl; rewrite invoke_eq;
  match goal with |- context [fst (op ?s)] => destruct (fst (op s)) end;
  [ try (match goal with
         | |- context [errors_As_permanent ?e] =>
             destruct (errors_As_permanent e)
         end; [simpl; discriminate|]);
    match goal with
    | |- context [(0 <? ?n) && (?n <=? ?a)] =>
        destruct ((0 <? n) && (n <=? a)) eqn:Hstop;
        [simpl; discriminate | apply (andb_max_retries_false _ _ Hn) in Hstop]
    end;
    match goal with
    | |- context [if ?b then _ else _] => destruct b; [simpl; discriminate|]
    end;
    match goal with
    | |- context [Retry_loop _ _ _ ?f ?a ?c ?s] =>
        specialize (IH a c s Hstop ltac:(lia));
        destruct (Retry_loop _ _ _ f a c s) as [[r2 s2] t2]
    | |- context [Legacy.Retry_loop _ _ _ ?f ?a ?c ?s] =>
        specialize (IH a c s Hstop ltac:(lia));
        destruct (Legacy.Retry_loop _ _ _ f a c s) as [[r2 s2] t2]
    end;
    simpl in *; exact IH
  | simpl; discriminate ].

Section RetryReturns.
Context {St : Type}.
Variable op : St -> option error * St.
Variable config : RetryConfig.
Variable env : Env.
Hypothesis Hn : 0 < MaxRetries config.

Lemma Retry_loop_returns fuel :
  forall attempts cur s,
    attempts < MaxRetries config ->
    (Z.to_nat (MaxRetries config - attempts) <= fuel)%nat ->
    fst (fst (Retry_loop (invoke op) config env fuel attempts cur s))
    <> OutOfFuel.
Proof.
  induction fuel as [|fuel IH]; intros attempts cur s Ha Hf.
  - lia.
  - returns_script op IH Hn.
Qed.

End RetryReturns.



(** ** Retry: the order of invocations and sleeps *)

Ltac schedule_script op IH :=
  let r2 := fresh "r" in
  let s2 := fresh "s" in
  let t2 := fresh "t" in
  let Hrec := fresh "Hrec" in
  let Hrun := fresh "Hrun" in
  intros Hrun; simpl in Hrun; rewrite invoke_eq in Hrun;
  match type of Hrun with context [fst (op ?s)] => destruct (fst (op s)) end;
  [ try (match type of Hrun with
         | context [errors_As_permanent ?e] =>
             destruct (errors_As_permanent e)
         end; [inversion Hrun; subst; simpl; split; [reflexivity|discriminate]|]);
    match type of Hrun with
    | context [if ?b then _ else _] =>
        destruct b;
        [inversion Hrun; subst; simpl; split; [reflexivity|discriminate]|]
    end;
    match type of Hrun with
    | context [if ?b then _ else _] =>
        destruct b;
        [inversion Hrun; subst; simpl; split; [reflexivity|discriminate]|]
    end;
    match type of Hrun with
    | context [Retry_loop _ _ _ ?f ?a ?c ?s] =>
        destruct (Retry_loop _ _ _ f a c s) as [[r2 s2] t2] eqn:Hrec
    | context [Legacy.Retry_loop _ _ _ ?f ?a ?c ?s] =>
        destruct (Legacy.Retry_loop _ _ _ f a c s) as [[r2 s2] t2] eqn:Hrec
    end;
    inversion Hrun; subst; apply IH in Hrec; destruct Hrec as [Hrec ?];
    simpl; split; [|discriminate];
    destruct (calls t2); [congruence|]; rewrite <- Hrec; reflexivity
  | inversion Hrun; subst; simpl; split; [reflexivity|discriminate] ].

Section RetrySchedule.
Context {St : Type}.
Variable op : St -> option error * St.
Variable config : RetryConfig.
Variable env : Env.

Lemma Retry_loop_schedule fuel :
  forall attempts cur s x s' t,
    Retry_loop (invoke op) config env fuel attempts cur s = (Return x, s', t) ->
    t = schedule config env attempts cur (calls t) /\ calls t <> [].
Proof.
  induction fuel as [|fuel IH]; intros attempts cur s x s' t.
  - simpl. discriminate.
  - schedule_script op IH.
Qed.


(** The sleeps of a schedule are the successive values of
    [currentInterval]. *)
Lemma sleeps_schedule (rs : list (option error)) :
  forall k : nat,
    sleeps (schedule config env (Z.of_nat k)
                     (currentIntervalAt config env (S k)) rs)
    = map (currentIntervalAt config env)
          (seq (S k) (List.length rs - 1)).
Proof.
  induction rs as [|r rs IH]; intros k.
  - reflexivity.
  - destruct rs as [|r' rs'].
    + reflexivity.
    + change (sleeps (schedule config env (Z.of_nat k)
                        (currentIntervalAt config env (S k)) (r :: r' :: rs')))
        with (currentIntervalAt config env (S k) ::
              sleeps (schedule config env (Z.of_nat k + 1)
                        (computeNextInterval config
                           (currentIntervalAt config env (S k))
                           (rnd env (Z.of_nat k + 1))) (r' :: rs'))).
      replace (Z.of_nat k + 1) with (Z.of_nat (S k)) by lia.
      change (computeNextInterval config (currentIntervalAt config env (S k))
                (rnd env (Z.of_nat (S k))))
        with (currentIntervalAt config env (S (S k))).
      rewrite IH. simpl. rewrite Nat.sub_0_r. reflexivity.
Qed.
End RetrySchedule.






(** ** RetryWithContext on a context that is already done *)

Lemma ctx_Err_not_permanent (c : ctxState) (e : error) :
  ctx_Err c = Some e -> errors_As_permanent e = None.
Proof. destruct c; simpl; intros H; inversion H; reflexivity. Qed.

Section CancelledContext.
Context {St : Type}.
Variable ctx : St -> ctxState.
Variable fn : RetryableFunc St.
Variable config : RetryConfig.
Variable env : Env.
Variable s0 : St.
Variable e : error.
Hypothesis Hdone : ctx_Err (ctx s0) = Some e.

(** The closure that [RetryWithContext] hands to [Retry]. *)
Let guarded : RetryableFunc St :=
  fun s => match ctx_Err (ctx s) with
           | Some e => (Some e, s, [])
           | None => fn s
           end.

End CancelledContext.




(** ** RetryWithLogging *)

Section Logging.
Context {St : Type}.
Variable op : St -> option error * St.
Variable config : RetryConfig.
Variable env : Env.

(** The closure that [RetryWithLogging] hands to [Retry]. *)
Let logged : RetryableFunc (Z * St) :=
  fun '(attempt, s) =>
    let attempt := attempt + 1 in
    let '(err, s1, t1) := invoke op s in
    match err with
    | Some e => (err, (attempt, s1), t1 ++ [EvLog (failedLine attempt e)])
    | None => (err, (attempt, s1), t1)
    end.

Lemma logged_eq (a : Z) (s : St) :
  logged (a, s) =
  match fst (op s) with
  | Some e => (Some e, (a + 1, snd (op s)),
               [EvCall (Some e); EvLog (failedLine (a + 1) e)])
  | None => (None, (a + 1, snd (op s)), [EvCall None])
  end.
Proof.
  unfold logged. rewrite invoke_eq. destruct (fst (op s)); reflexivity.
Qed.

Lemma logging_loop fuel :
  forall attempts cur a s r st' t,
    Retry_loop logged config env fuel attempts cur (a, s) = (r, st', t) ->
    loglines t = failedLines a (calls t).
Proof.
  induction fuel as [|fuel IH]; intros attempts cur a s r st' t Hrun.
  - simpl in Hrun. inversion Hrun; subst. reflexivity.
  - cbn [Retry_loop] in Hrun. rewrite logged_eq in Hrun.
    destruct (fst (op s)) as [e|].
    + destruct (errors_As_permanent e).
      { inversion Hrun; subst. reflexivity. }
      destruct (_ && _).
      { inversion Hrun; subst. reflexivity. }
      destruct (_ && _).
      { inversion Hrun; subst. reflexivity. }
      destruct (Retry_loop _ _ _ fuel _ _ _) as [[r2 s2] t2] eqn:Hrec.
      inversion Hrun; subst. apply IH in Hrec.
      simpl. rewrite Hrec. reflexivity.
    + inversion Hrun; subst. reflexivity.
Qed.
End Logging.

(** C9, as the code has it: [RetryWithLogging] writes one line
    "Attempt N failed: <error>" for every invocation that fails, numbered
    by invocation, including a failure that ends the run (budget used up or
    permanent error), and none for an invocation that succeeds; so when the
    invocations fail twice and then succeed there are exactly two lines,
    for attempts 1 and 2. *)
Theorem RetryWithLogging_logs_every_failure :
  (forall (St : Type) (op : St -> option error * St) (opts : list Option)
          (env : Env) (fuel : nat) (s : St),
      loglines (snd (RetryWithLogging (invoke op) opts env fuel s))
      = failedLines 0
          (calls (snd (RetryWithLogging (invoke op) opts env fuel s)))) /\
  (forall (St : Type) (op : St -> option error * St) (opts : list Option)
          (env : Env) (fuel : nat) (s : St) (e1 e2 : error),
      calls (snd (RetryWithLogging (invoke op) opts env fuel s))
      = [Some e1; Some e2; None] ->
      loglines (snd (RetryWithLogging (invoke op) opts env fuel s))
      = [failedLine 1 e1; failedLine 2 e2]).
Proof.
  assert (H : forall (St : Type) (op : St -> option error * St)
                     (opts : list Option) (env : Env) (fuel : nat) (s : St),
             loglines (snd (RetryWithLogging (invoke op) opts env fuel s))
             = failedLines 0
                 (calls (snd (RetryWithLogging (invoke op) opts env fuel s)))).
  { intros St op opts env fuel s. unfold RetryWithLogging.
    match goal with
    | |- context [Retry ?f opts env fuel (0, s)] =>
        destruct (Retry f opts env fuel (0, s)) as [[r [a s']] t] eqn:Hrun
    end.
    simpl. unfold Retry in Hrun.
    eapply logging_loop. exact Hrun. }
  split; [exact H|].
  intros St op opts env fuel s e1 e2 Hc. rewrite H, Hc. reflexivity.
Qed.

Lemma RetryWithLogging_logs_every_failure_witness :
  loglines (snd (RetryWithLogging
                   (invoke (failTwice (errorString "e1") (errorString "e2")))
                   scenarioOpts env0 5 0%nat))
  = ["Attempt 1 failed: e1"; "Attempt 2 failed: e2"]%string.
Proof.
  apply (proj2 RetryWithLogging_logs_every_failure nat
               (failTwice (errorString "e1") (errorString "e2"))
               scenarioOpts env0 5%nat 0%nat
               (errorString "e1") (errorString "e2")).
  vm_compute. reflexivity.
Defined.

(** The run that separates the code from the words "except the final
    attempt that ... exhausts the budget": two attempts allowed, both fail,
    and both are logged. *)
Lemma RetryWithLogging_logs_exhausting_attempt :
  let run := RetryWithLogging (invoke (failAlways (errorString "boom")))
                              [Tries 2; Initial 1; NoJitter] env0 5 0%nat in
  fst (fst run) = Return (Some (errorString "boom")) /\
  calls (snd run) = [Some (errorString "boom"); Some (errorString "boom")] /\
  loglines (snd run)
  = ["Attempt 1 failed: boom"; "Attempt 2 failed: boom"]%string /\
  specifiedLines (calls (snd run)) = ["Attempt 1 failed: boom"]%string /\
  loglines (snd run) <> specifiedLines (calls (snd run)).
Proof.
  vm_compute. repeat split; discriminate.
Qed.

(** ** The delay computation *)

Lemma Duration_of_float64_nonneg (x : float64) :
  (0 <= x)%Q -> Duration_of_float64 x = Qfloor x.
Proof.
  destruct x as [n d]. unfold Qle. simpl. intros H.
  unfold Duration_of_float64. simpl. apply Z.quot_div_nonneg; lia.
Qed.




Lemma inject_Z_nonneg (z : Z) : 0 <= z -> (0 <= inject_Z z)%Q.
Proof. intros H. change 0%Q with (inject_Z 0). rewrite <- Zle_Qle. exact H. Qed.

(** With jitter, for a growth step that is not negative: the result is the
    floor of a point of [[grown(1-f), grown(1+f)]]. *)
Lemma jitterInterval_bounds (config : RetryConfig) (grown : Duration)
  (r : float64) :
  (0 < RandomizeFactor config)%Q -> (RandomizeFactor config <= 1)%Q ->
  (0 <= r)%Q -> (r < 1)%Q -> 0 <= grown ->
  let f := RandomizeFactor config in
  let d := jitterInterval config grown r in
  Qfloor (inject_Z grown * (1 - f)) <= d /\
  (inject_Z grown * (1 - f) - 1 < inject_Z d)%Q /\
  (inject_Z d <= inject_Z grown * (1 + f))%Q.
Proof.
  intros Hf0 Hf1 Hr0 Hr1 Hg f d.
  pose proof (inject_Z_nonneg grown Hg) as Hg'.
  unfold d, jitterInterval, float64_of_Duration. clear d.
  fold f. fold f in Hf0, Hf1. clearbody f.
  set (g := inject_Z grown) in *. clearbody g.
  set (x := (g - f * g + r * (g + f * g - (g - f * g)))%Q).
  assert (Hfg : (0 <= f * g)%Q) by (apply Qmult_le_0_compat; lra).
  assert (Hrfg : (0 <= r * (f * g))%Q) by (apply Qmult_le_0_compat; lra).
  assert (Hrfg1 : (r * (f * g) <= f * g)%Q).
  { setoid_replace (f * g)%Q with (1 * (f * g))%Q at 2 by ring.
    apply Qmult_le_compat_r; lra. }
  assert (Hfg1 : (f * g <= g)%Q).
  { setoid_replace g with (1 * g)%Q at 2 by ring.
    apply Qmult_le_compat_r; lra. }
  assert (Hx : (x == g - f * g + 2 * (r * (f * g)))%Q) by (unfold x; ring).
  assert (Hx0 : (0 <= x)%Q) by lra.
  rewrite (Duration_of_float64_nonneg x Hx0).
  pose proof (Qfloor_le x) as Hlo. pose proof (Qlt_floor x) as Hhi.
  rewrite inject_Z_plus in Hhi. change (inject_Z 1) with 1%Q in Hhi.
  split; [|split].
  - apply Qfloor_resp_le.
    setoid_replace (g * (1 - f))%Q with (g - f * g)%Q by ring. lra.
  - setoid_replace (g * (1 - f))%Q with (g - f * g)%Q by ring. lra.
  - setoid_replace (g * (1 + f))%Q with (g + f * g)%Q by ring. lra.
Qed.




(** ** Growth without jitter *)




Section Growth.
Variable config : RetryConfig.
Variable env : Env.
Hypothesis Hm : (1 <= Multiplier config)%Q.
Hypothesis Hf : (RandomizeFactor config == 0)%Q.
Hypothesis Hi : 0 <= InitialInterval config <= MaxInterval config.


End Growth.




(** ** Attempts: the first attempt *)

Lemma no_stop_at_zero (n : Z) : (0 <? n) && (n <=? 0) = false.
Proof.
  apply andb_false_iff. destruct (Z.ltb_spec 0 n); [right|left; reflexivity].
  apply Z.leb_gt. lia.
Qed.

Lemma no_elapsed_stop_at_zero (n : Z) : (0 <? n) && (n <? 0) = false.
Proof.
  apply andb_false_iff. destruct (Z.ltb_spec 0 n); [right|left; reflexivity].
  apply Z.ltb_ge. lia.
Qed.

Lemma IterFunc_first_attempt (opts : list Option) (env : Env) (fuel : nat)
  (C : Type) (yield : Yield C) (c : C) :
  exists rest,
    snd (IterFunc.Attempts opts env (S fuel) C yield c)
    = EvYield (firstAttempt (since env 1))
      :: snd (yield (firstAttempt (since env 1)) c) ++ rest.
Proof.
  unfold IterFunc.Attempts. cbn [IterFunc.Attempts_loop].
  change (0 + 1) with 1. cbn [Z.ltb Z.compare Pos.compare Pos.compare_cont].
  fold (firstAttempt (since env 1)).
  destruct (yield (firstAttempt (since env 1)) c) as [[more c1] t1].
  destruct more; cbn [negb snd].
  - destruct (IterFunc.Attempts_loop _ _ _ _ _ _ _ _) as [[fin c2] t2].
    exists t2. reflexivity.
  - exists []. rewrite app_nil_r. reflexivity.
Qed.

Lemma IterSeq_first_attempt
  (getNextInterval : Z -> Duration -> float64 -> Duration)
  (opts : list Option) (env : Env) (fuel : nat)
  (C : Type) (yield : Yield C) (c : C) :
  exists rest,
    snd (IterSeq.Attempts getNextInterval opts env (S fuel) C yield c)
    = EvYield (firstAttempt 0) :: snd (yield (firstAttempt 0) c) ++ rest.
Proof.
  unfold IterSeq.Attempts. cbn [IterSeq.Attempts_loop].
  rewrite no_stop_at_zero, no_elapsed_stop_at_zero.
  cbn [Z.ltb Z.eqb Z.compare]. change (0 + 1) with 1.
  fold (firstAttempt 0).
  destruct (yield (firstAttempt 0) c) as [[more c1] t1].
  destruct more; cbn [negb snd].
  - destruct (IterSeq.Attempts_loop _ _ _ _ _ _ _ _ _) as [[fin c2] t2].
    exists t2. reflexivity.
  - exists []. rewrite app_nil_r. reflexivity.
Qed.

(** C10: whatever the options, clock and consumer, both revisions of
    [Attempts] begin by handing the consumer an attempt with [Number = 1],
    [Delay = 0] and a nil [LastError]; nothing is slept before it and no
    stopping condition can prevent it, so no configuration gives an empty
    sequence. *)
Theorem Attempts_always_yields_first_attempt :
  forall (getNextInterval : Z -> Duration -> float64 -> Duration)
         (opts : list Option) (env : Env) (fuel : nat)
         (C : Type) (yield : Yield C) (c : C),
    (exists rest,
        snd (IterFunc.Attempts opts env (S fuel) C yield c)
        = EvYield (firstAttempt (since env 1))
          :: snd (yield (firstAttempt (since env 1)) c) ++ rest) /\
    (exists rest,
        snd (IterSeq.Attempts getNextInterval opts env (S fuel) C yield c)
        = EvYield (firstAttempt 0) :: snd (yield (firstAttempt 0) c) ++ rest) /\
    Number (firstAttempt (since env 1)) = 1 /\
    Delay (firstAttempt (since env 1)) = 0 /\
    LastError (firstAttempt (since env 1)) = None.
Proof.
  intros. split; [apply IterFunc_first_attempt|].
  split; [apply IterSeq_first_attempt|].
  repeat split.
Qed.

(** ** DoWithAttempts *)

Lemma last_cons_default {A : Type} (l : list A) (x d : A) :
  last (x :: l) d = last l x.
Proof.
  revert x d. induction l as [|y l IH]; intros x d; [reflexivity|].
  change (last (x :: y :: l) d) with (last (y :: l) d).
  rewrite IH. symmetry. apply IH.
Qed.

Lemma last_cons_nonempty {A : Type} (l : list A) (x d : A) :
  l <> [] -> last (x :: l) d = last l d.
Proof. destruct l; [congruence | reflexivity]. Qed.

Lemma calls_sleep_prefix (b : bool) (d : Duration) (t : list Event) :
  calls ((if b then [EvSleep d] else []) ++ t) = calls t.
Proof. destruct b; reflexivity. Qed.

Lemma calls_yield_call (a : Attempt) (r : option error) (t : list Event) :
  calls (EvYield a :: EvCall r :: t) = r :: calls t.
Proof. reflexivity. Qed.

Lemma outcome_retryable (r : option error) : retryable r -> outcome r = r.
Proof. intros [e [-> He]]. simpl. rewrite He. reflexivity. Qed.

Lemma retryable_last (l : list (option error)) (d : option error) :
  Forall retryable l -> l <> [] -> retryable (last l d).
Proof.
  intros Hall Hne. induction Hall as [|x l Hx Hall IH]; [congruence|].
  destruct l as [|y l]; [exact Hx|].
  change (last (x :: y :: l) d) with (last (y :: l) d).
  apply IH. discriminate.
Qed.

Section DoWithAttemptsFunc.
Context {St : Type}.
Variable op : Attempt -> St -> option error * St.
Variable config : RetryConfig.
Variable env : Env.

Lemma IterFunc_body_eq (a : Attempt) (st : IterFunc.DoState St) :
  IterFunc.DoWithAttempts_body (invokeWith op) a st =
  match fst (op a (IterFunc.prog st)) with
  | None =>
      (false,
       IterFunc.mkDoState (IterFunc.finalErr st) (Some None)
                          (snd (op a (IterFunc.prog st))),
       [EvCall None])
  | Some e =>
      match errors_As_permanent e with
      | Some inner =>
          (false,
           IterFunc.mkDoState (IterFunc.finalErr st) (Some inner)
                              (snd (op a (IterFunc.prog st))),
           [EvCall (Some e)])
      | None =>
          (true,
           IterFunc.mkDoState (Some e) None (snd (op a (IterFunc.prog st))),
           [EvCall (Some e)])
      end
  end.
Proof.
  unfold IterFunc.DoWithAttempts_body, invokeWith.
  destruct (op a (IterFunc.prog st)) as [[e|] s1]; simpl;
    [destruct (errors_As_permanent e)|]; reflexivity.
Qed.

End DoWithAttemptsFunc.


Section DoWithAttemptsSeq.
Context {St : Type}.
Variable getNextInterval : Z -> Duration -> float64 -> Duration.
Variable op : Attempt -> St -> option error * St.
Variable config : RetryConfig.
Variable env : Env.

Lemma IterSeq_body_eq (a : Attempt) (st : IterSeq.DoState St) :
  IterSeq.DoWithAttempts_body (invokeWith op) a st =
  match fst (op a (IterSeq.prog st)) with
  | None =>
      (false,
       IterSeq.mkDoState (IterSeq.lastErr st) (Some None)
                         (snd (op a (IterSeq.prog st))),
       [EvCall None])
  | Some e =>
      match errors_As_permanent e with
      | Some inner =>
          (false,
           IterSeq.mkDoState (Some e) (Some inner)
                             (snd (op a (IterSeq.prog st))),
           [EvCall (Some e)])
      | None =>
          (true,
           IterSeq.mkDoState (Some e) None (snd (op a (IterSeq.prog st))),
           [EvCall (Some e)])
      end
  end.
Proof.
  unfold IterSeq.DoWithAttempts_body, invokeWith.
  destruct (op a (IterSeq.prog st)) as [[e|] s1]; simpl;
    [destruct (errors_As_permanent e)|]; reflexivity.
Qed.


End DoWithAttemptsSeq.





(** The driver of the [func] revision has no exhaustion error of its own:
    over a sequence that yields nothing it returns nil. *)
Lemma IterFunc_DoWithAttemptsOver_empty {St : Type}
  (fn : Attempt -> Action St (option error)) (s : St) :
  IterFunc.DoWithAttemptsOver emptySeq fn s = (Return None, s, []).
Proof. reflexivity. Qed.



(** * Further properties *)

(** ** RetryWithBackoff *)

Lemma Duration_of_float64_inject_Z (z : Z) :
  Duration_of_float64 (inject_Z z) = z.
Proof. unfold Duration_of_float64. simpl. apply Z.quot_1_r. Qed.

Lemma Qmin_inject_Z (a b : Z) :
  Qmin (inject_Z a) (inject_Z b) = inject_Z (Z.min a b).
Proof.
  unfold Qmin, GenericMinMax.gmin, Qcompare. simpl.
  rewrite !Z.mul_1_r. unfold Z.min.
  destruct (a ?= b); reflexivity.
Qed.

Lemma nextBackoff_eq (backoff maxBackoff : Duration) :
  nextBackoff backoff maxBackoff = Z.min (backoff * 2) maxBackoff.
Proof.
  unfold nextBackoff, float64_of_Duration.
  rewrite Qmin_inject_Z. apply Duration_of_float64_inject_Z.
Qed.

(** The backoff doubles from its start until it reaches the maximum. *)
Lemma backoffAt_closed (backoff maxBackoff : Duration) (k : nat) :
  0 <= backoff <= maxBackoff ->
  backoffAt backoff maxBackoff k = Z.min (backoff * 2 ^ Z.of_nat k) maxBackoff.
Proof.
  intros Hb. induction k as [|k IH].
  - simpl. lia.
  - cbn [backoffAt]. rewrite nextBackoff_eq, IH.
    rewrite Nat2Z.inj_succ, Z.pow_succ_r by lia.
    assert (0 < 2 ^ Z.of_nat k) by (apply Z.pow_pos_nonneg; lia).
    nia.
Qed.

Lemma backoffAt_shift (backoff maxBackoff : Duration) (k : nat) :
  backoffAt (nextBackoff backoff maxBackoff) maxBackoff k
  = backoffAt backoff maxBackoff (S k).
Proof.
  induction k as [|k IH]; [reflexivity|].
  cbn [backoffAt] in *. rewrite IH. reflexivity.
Qed.

Lemma calls_call_sleep (r : option error) (d : Duration) (t : list Event) :
  calls (EvCall r :: EvSleep d :: t) = r :: calls t.
Proof. reflexivity. Qed.

Lemma sleeps_call_sleep (r : option error) (d : Duration) (t : list Event) :
  sleeps (EvCall r :: EvSleep d :: t) = d :: sleeps t.
Proof. reflexivity. Qed.

Section RetryWithBackoffFacts.
Context {St : Type}.
Variable op : St -> option error * St.
Variable maxRetries : Z.
Variable maxBackoff : Duration.

Lemma RetryWithBackoff_loop_outcome (n : nat) :
  forall i backoff s r s' t,
    Z.of_nat n = maxRetries - i ->
    RetryWithBackoff_loop (invoke op) maxRetries maxBackoff n i backoff s
    = (r, s', t) ->
    (List.length (calls t) <= n)%nat /\
    ((0 < n)%nat -> calls t <> []) /\
    r = last (calls t) None /\
    (forall e, r = Some e -> List.length (calls t) = n) /\
    (forall e, In e (removelast (calls t)) -> e <> None) /\
    sleeps t = map (fun k => backoffAt backoff maxBackoff k)
                   (seq 0 (List.length (calls t) - 1)).
Proof.
  induction n as [|n IH]; intros i backoff s r s' t Hn Hrun.
  - simpl in Hrun. inversion Hrun; subst. simpl.
    repeat split; try lia; try discriminate; try (intros e []).
  - cbn [RetryWithBackoff_loop] in Hrun. rewrite invoke_eq in Hrun.
    destruct (fst (op s)) as [e|].
    + destruct (i =? maxRetries - 1) eqn:Hi.
      * inversion Hrun; subst. simpl. apply Z.eqb_eq in Hi.
        repeat split; try lia; try discriminate;
          try (intros e0 _; lia); try (intros e0 []).
      * apply Z.eqb_neq in Hi.
        destruct (RetryWithBackoff_loop _ _ _ n _ _ _) as [[r2 s2] t2] eqn:Hrec.
        inversion Hrun; subst.
        apply IH in Hrec; [|lia].
        destruct Hrec as [Hlen [Hne [Hr [He [Hall Hsl]]]]].
        assert (Hn0 : (0 < n)%nat) by lia. specialize (Hne Hn0).
        rewrite calls_call_sleep, sleeps_call_sleep.
        repeat split.
        -- simpl. lia.
        -- discriminate.
        -- rewrite last_cons_nonempty by exact Hne. exact Hr.
        -- intros e0 H0. simpl. rewrite (He e0 H0). reflexivity.
        -- intros e0 Hin. destruct (calls t2) as [|c cs] eqn:Hc;
             [congruence|].
           change (removelast (Some e :: c :: cs))
             with (Some e :: removelast (c :: cs)) in Hin.
           destruct Hin as [<-|Hin]; [discriminate | apply Hall; exact Hin].
        -- rewrite Hsl. destruct (calls t2) as [|c cs] eqn:Hc; [congruence|].
           cbn [List.length]. rewrite !Nat.sub_succ, !Nat.sub_0_r.
           cbn [seq map backoffAt]. f_equal.
           rewrite <- seq_shift, map_map. apply map_ext.
           intros k. apply backoffAt_shift.
    + inversion Hrun; subst. simpl.
      repeat split; try lia; try discriminate; try (intros e []).
Qed.
End RetryWithBackoffFacts.

(** X1: [RetryWithBackoff] runs the function at most [maxRetries] times and
    returns exactly what the last run returned (a marked error is returned
    as it is); every run before the last failed; it returns an error only
    after [maxRetries] runs; and with [maxRetries <= 0] it returns nil
    without running the function at all. *)
Theorem RetryWithBackoff_outcome :
  forall (St : Type) (op : St -> option error * St) (maxRetries : Z) (s : St)
         (r : option error) (s' : St) (t : list Event),
    RetryWithBackoff (invoke op) maxRetries s = (r, s', t) ->
    Z.of_nat (List.length (calls t)) <= Z.max 0 maxRetries /\
    r = last (calls t) None /\
    (forall e, r = Some e -> Z.of_nat (List.length (calls t)) = maxRetries) /\
    (forall e, In e (removelast (calls t)) -> e <> None) /\
    (maxRetries <= 0 -> r = None /\ s' = s /\ t = []).
Proof.
  intros St op maxRetries s r s' t Hrun. unfold RetryWithBackoff in Hrun.
  destruct (Z.le_gt_cases maxRetries 0) as [Hle|Hgt].
  - replace (Z.to_nat maxRetries) with 0%nat in Hrun by lia.
    simpl in Hrun. inversion Hrun; subst. simpl.
    repeat split; try lia; try discriminate; try (intros e []).
  - apply RetryWithBackoff_loop_outcome in Hrun; [|lia].
    destruct Hrun as [Hlen [_ [Hr [He [Hall _]]]]].
    repeat split; try assumption; try lia.
    intros e H. rewrite (He e H). lia.
Qed.

Lemma RetryWithBackoff_outcome_witness :
  let t := [EvCall (Some (errorString "boom")); EvSleep (100 * Millisecond);
            EvCall (Some (errorString "boom"))] in
  Z.of_nat (List.length (calls t)) <= Z.max 0 2 /\
  Some (errorString "boom") = last (calls t) None /\
  (forall e, Some (errorString "boom") = Some e ->
             Z.of_nat (List.length (calls t)) = 2) /\
  (forall e, In e (removelast (calls t)) -> e <> None) /\
  (2 <= 0 -> Some (errorString "boom") = None /\ 2%nat = 0%nat /\ t = []).
Proof.
  intros t.
  apply (RetryWithBackoff_outcome nat (failAlways (errorString "boom")) 2
           0%nat (Some (errorString "boom")) 2%nat t).
  vm_compute. reflexivity.
Defined.

(** X2: between its runs [RetryWithBackoff] sleeps 100ms, 200ms, 400ms, ...
    doubling up to 10s: the sleep after the [k]-th failed run (counting
    from 0) lasts [min(100ms * 2^k, 10s)], and there is one sleep less
    than there are runs. *)
Theorem RetryWithBackoff_sleeps_double_to_max :
  forall (St : Type) (op : St -> option error * St) (maxRetries : Z) (s : St),
    sleeps (snd (RetryWithBackoff (invoke op) maxRetries s))
    = map (fun k => Z.min (100 * Millisecond * 2 ^ Z.of_nat k) (10 * Second))
          (seq 0 (List.length
                    (calls (snd (RetryWithBackoff (invoke op) maxRetries s)))
                  - 1)).
Proof.
  intros St op maxRetries s. unfold RetryWithBackoff.
  destruct (Z.le_gt_cases maxRetries 0) as [Hle|Hgt].
  - replace (Z.to_nat maxRetries) with 0%nat by lia. reflexivity.
  - destruct (RetryWithBackoff_loop _ _ _ _ _ _ _) as [[r s'] t] eqn:Hrun.
    apply RetryWithBackoff_loop_outcome in Hrun; [|lia].
    destruct Hrun as [_ [_ [_ [_ [_ Hsl]]]]].
    cbn [snd]. rewrite Hsl. apply map_ext. intros k.
    apply backoffAt_closed. vm_compute. split; discriminate.
Qed.

(** ** Retry: what is returned, and when it is not *)

Lemma removelast_cons_nonempty {A : Type} (x : A) (l : list A) :
  l <> [] -> removelast (x :: l) = x :: removelast l.
Proof. destruct l; [congruence | reflexivity]. Qed.

Section RetryOutcome.
Context {St : Type}.
Variable op : St -> option error * St.
Variable config : RetryConfig.
Variable env : Env.

Lemma Retry_loop_outcome fuel :
  forall attempts cur s x s' t,
    Retry_loop (invoke op) config env fuel attempts cur s = (Return x, s', t) ->
    calls t <> [] /\
    x = outcome (last (calls t) None) /\
    Forall retryable (removelast (calls t)).
Proof.
  induction fuel as [|fuel IH]; intros attempts cur s x s' t Hrun.
  - simpl in Hrun. discriminate.
  - simpl in Hrun. rewrite invoke_eq in Hrun.
    destruct (fst (op s)) as [e|].
    + destruct (errors_As_permanent e) as [inner|] eqn:Hp.
      { inversion Hrun; subst. simpl. rewrite Hp.
        repeat split; [discriminate | constructor]. }
      destruct (_ && _).
      { inversion Hrun; subst. simpl. rewrite Hp.
        repeat split; [discriminate | constructor]. }
      destruct (_ && _).
      { inversion Hrun; subst. simpl. rewrite Hp.
        repeat split; [discriminate | constructor]. }
      destruct (Retry_loop _ _ _ fuel _ _ _) as [[r2 s2] t2] eqn:Hrec.
      inversion Hrun; subst. apply IH in Hrec.
      destruct Hrec as [Hne [Hx Hall]].
      rewrite calls_call_sleep. split; [discriminate|]. split.
      * rewrite last_cons_nonempty by exact Hne. exact Hx.
      * rewrite removelast_cons_nonempty by exact Hne.
        constructor; [exists e; auto | exact Hall].
    + inversion Hrun; subst. simpl.
      repeat split; [discriminate | constructor].
Qed.

Lemma Legacy_Retry_loop_outcome fuel :
  forall attempts cur s x s' t,
    Legacy.Retry_loop (invoke op) config env fuel attempts cur s
    = (Return x, s', t) ->
    calls t <> [] /\
    x = last (calls t) None /\
    Forall (fun r => r <> None) (removelast (calls t)).
Proof.
  induction fuel as [|fuel IH]; intros attempts cur s x s' t Hrun.
  - simpl in Hrun. discriminate.
  - simpl in Hrun. rewrite invoke_eq in Hrun.
    destruct (fst (op s)) as [e|].
    + destruct (_ && _).
      { inversion Hrun; subst. simpl.
        repeat split; [discriminate | constructor]. }
      destruct (_ && _).
      { inversion Hrun; subst. simpl.
        repeat split; [discriminate | constructor]. }
      destruct (Legacy.Retry_loop _ _ _ fuel _ _ _) as [[r2 s2] t2] eqn:Hrec.
      inversion Hrun; subst. apply IH in Hrec.
      destruct Hrec as [Hne [Hx Hall]].
      rewrite calls_call_sleep. split; [discriminate|]. split.
      * rewrite last_cons_nonempty by exact Hne. exact Hx.
      * rewrite removelast_cons_nonempty by exact Hne.
        constructor; [discriminate | exact Hall].
    + inversion Hrun; subst. simpl.
      repeat split; [discriminate | constructor].
Qed.

(** Without an attempt cap and without a time cap, a function that keeps
    failing with retryable errors is retried for ever. *)
Lemma Retry_loop_unbounded fuel :
  MaxRetries config <= 0 -> MaxElapsedTime config <= 0 ->
  (forall s, exists e, fst (op s) = Some e /\ errors_As_permanent e = None) ->
  forall attempts cur s,
    fst (fst (Retry_loop (invoke op) config env fuel attempts cur s))
    = OutOfFuel /\
    List.length (calls (snd (Retry_loop (invoke op) config env fuel
                                        attempts cur s))) = fuel.
Proof.
  intros Hn Ht Hop. induction fuel as [|fuel IH]; intros attempts cur s.
  - split; reflexivity.
  - simpl. rewrite invoke_eq.
    destruct (Hop s) as [e [He Hp]]. rewrite He, Hp.
    replace (0 <? MaxRetries config) with false
      by (symmetry; apply Z.ltb_ge; lia).
    replace (0 <? MaxElapsedTime config) with false
      by (symmetry; apply Z.ltb_ge; lia).
    cbn [andb].
    specialize (IH (attempts + 1)
                   (computeNextInterval config cur (rnd env (attempts + 1)))
                   (snd (op s))).
    destruct (Retry_loop _ _ _ fuel _ _ _) as [[r2 s2] t2].
    simpl in *. destruct IH as [IH1 IH2]. split; [exact IH1 | lia].
Qed.

(** The time cap: the run returns at the latest in the round in which the
    clock reading has reached [MaxElapsedTime]. *)
Lemma Retry_loop_returns_on_elapsed fuel :
  0 < MaxElapsedTime config ->
  forall attempts cur s k,
    attempts < k <= attempts + Z.of_nat fuel ->
    MaxElapsedTime config <= since env k ->
    fst (fst (Retry_loop (invoke op) config env fuel attempts cur s))
    <> OutOfFuel /\
    Z.of_nat (List.length (calls (snd (Retry_loop (invoke op) config env fuel
                                                  attempts cur s))))
    <= k - attempts.
Proof.
  intros Ht. induction fuel as [|fuel IH]; intros attempts cur s k Hk Hs.
  - lia.
  - simpl. rewrite invoke_eq.
    destruct (fst (op s)) as [e|]; [|simpl; split; [discriminate | lia]].
    destruct (errors_As_permanent e); [simpl; split; [discriminate | lia]|].
    destruct (_ && _); [simpl; split; [discriminate | lia]|].
    destruct ((0 <? MaxElapsedTime config)
              && (MaxElapsedTime config <=? since env (attempts + 1)))
      eqn:Hc; [simpl; split; [discriminate | lia]|].
    assert (k <> attempts + 1).
    { intros ->. apply andb_false_iff in Hc.
      destruct Hc as [H|H]; [apply Z.ltb_ge in H | apply Z.leb_gt in H]; lia. }
    specialize (IH (attempts + 1)
                   (computeNextInterval config cur (rnd env (attempts + 1)))
                   (snd (op s)) k ltac:(lia) Hs).
    destruct (Retry_loop _ _ _ fuel _ _ _) as [[r2 s2] t2].
    simpl in *. destruct IH as [IH1 IH2]. split; [exact IH1 | lia].
Qed.
End RetryOutcome.

(** X3: [Retry] returns what its last invocation gives: nil when it
    succeeded, the error inside the marker when it failed with a marked
    error, otherwise that last error itself; every earlier invocation
    failed with a retryable error.  The revision without the check returns
    the last invocation's result as it is. *)
Theorem Retry_returns_last_outcome :
  forall (St : Type) (op : St -> option error * St) (opts : list Option)
         (env : Env) (fuel : nat) (s : St) (x : option error) (s' : St)
         (t : list Event),
    (Retry (invoke op) opts env fuel s = (Return x, s', t) ->
     calls t <> [] /\ x = outcome (last (calls t) None) /\
     Forall retryable (removelast (calls t))) /\
    (Legacy.Retry (invoke op) opts env fuel s = (Return x, s', t) ->
     calls t <> [] /\ x = last (calls t) None /\
     Forall (fun r => r <> None) (removelast (calls t))).
Proof.
  intros. split; intros Hrun.
  - eapply Retry_loop_outcome; exact Hrun.
  - eapply Legacy_Retry_loop_outcome; exact Hrun.
Qed.

Lemma Retry_returns_last_outcome_witness :
  let t := [EvCall (Some (errorString "e1")); EvSleep (10 * Millisecond);
            EvCall (Some (errorString "e2")); EvSleep (20 * Millisecond);
            EvCall None] in
  calls t <> [] /\ None = outcome (last (calls t) None) /\
  Forall retryable (removelast (calls t)).
Proof.
  intros t.
  apply (proj1 (Retry_returns_last_outcome nat
                  (failTwice (errorString "e1") (errorString "e2"))
                  scenarioOpts env0 3%nat 0%nat None 3%nat t)).
  vm_compute. reflexivity.
Defined.

(** X4: with no attempt cap ([MaxRetries <= 0], which includes negative
    values) and no time cap ([MaxElapsedTime <= 0]), [Retry] never returns
    while the function keeps failing with retryable errors: after any
    number of rounds it is still running and has made one invocation per
    round. *)
Theorem Retry_without_budget_never_returns :
  forall (St : Type) (op : St -> option error * St) (opts : list Option)
         (env : Env) (fuel : nat) (s : St),
    MaxRetries (applyOptions opts defaultConfig) <= 0 ->
    MaxElapsedTime (applyOptions opts defaultConfig) <= 0 ->
    (forall s, exists e, fst (op s) = Some e /\ errors_As_permanent e = None) ->
    fst (fst (Retry (invoke op) opts env fuel s)) = OutOfFuel /\
    List.length (calls (snd (Retry (invoke op) opts env fuel s))) = fuel.
Proof.
  intros St op opts env fuel s Hn Ht Hop. unfold Retry.
  apply Retry_loop_unbounded; assumption.
Qed.

Lemma Retry_without_budget_never_returns_witness :
  fst (fst (Retry (invoke (failAlways (errorString "boom")))
                  [Forever; MaxTime 0] env0 50 0%nat)) = OutOfFuel /\
  List.length (calls (snd (Retry (invoke (failAlways (errorString "boom")))
                                 [Forever; MaxTime 0] env0 50 0%nat)))
  = 50%nat.
Proof.
  apply (Retry_without_budget_never_returns nat
           (failAlways (errorString "boom")) [Forever; MaxTime 0] env0
           50%nat 0%nat).
  - discriminate.
  - discriminate.
  - intros s. exists (errorString "boom"). split; reflexivity.
Defined.

(** X5: with [MaxElapsedTime > 0], as soon as the clock reading taken in
    round [k] has reached the cap the run is over: it returns within [k]
    rounds and makes at most [k] invocations, whatever the attempt cap. *)
Theorem Retry_returns_on_elapsed :
  forall (St : Type) (op : St -> option error * St) (opts : list Option)
         (env : Env) (fuel : nat) (s : St) (k : Z),
    0 < MaxElapsedTime (applyOptions opts defaultConfig) ->
    0 < k <= Z.of_nat fuel ->
    MaxElapsedTime (applyOptions opts defaultConfig) <= since env k ->
    fst (fst (Retry (invoke op) opts env fuel s)) <> OutOfFuel /\
    Z.of_nat (List.length (calls (snd (Retry (invoke op) opts env fuel s))))
    <= k.
Proof.
  intros St op opts env fuel s k Ht Hk Hs. unfold Retry.
  pose proof (Retry_loop_returns_on_elapsed op
                (applyOptions opts defaultConfig) env fuel Ht 0
                (InitialInterval (applyOptions opts defaultConfig)) s k
                ltac:(lia) Hs) as H.
  rewrite Z.sub_0_r in H. exact H.
Qed.

Lemma Retry_returns_on_elapsed_witness :
  fst (fst (Retry (invoke (failAlways (errorString "boom")))
                  [Forever; MaxTime (3 * Second)]
                  (mkEnv (fun k => k * Second) (fun _ => 0%Q)) 10 0%nat))
  <> OutOfFuel /\
  Z.of_nat (List.length
              (calls (snd (Retry (invoke (failAlways (errorString "boom")))
                                 [Forever; MaxTime (3 * Second)]
                                 (mkEnv (fun k => k * Second) (fun _ => 0%Q))
                                 10 0%nat)))) <= 3.
Proof.
  apply (Retry_returns_on_elapsed nat (failAlways (errorString "boom"))
           [Forever; MaxTime (3 * Second)]
           (mkEnv (fun k => k * Second) (fun _ => 0%Q)) 10%nat 0%nat 3).
  - reflexivity.
  - split; [reflexivity | discriminate].
  - discriminate.
Defined.

(** ** Retry: the range of the delays *)

Lemma float_pos_spec (x : float64) : float_pos x = true -> (0 < x)%Q.
Proof.
  unfold float_pos. destruct (Qle_bool x 0) eqn:E; [discriminate|].
  intros _. apply Qnot_le_lt. intros H. apply Qle_bool_iff in H. congruence.
Qed.

Lemma Duration_of_float64_pos (x : float64) :
  (0 <= x)%Q -> 0 <= Duration_of_float64 x.
Proof.
  intros H. rewrite Duration_of_float64_nonneg by exact H.
  change 0 with (Qfloor 0). apply Qfloor_resp_le. exact H.
Qed.

Section DelayRange.
Variable config : RetryConfig.
Hypothesis Hmax : 0 <= MaxInterval config.
Hypothesis Hmul : (0 <= Multiplier config)%Q.
Hypothesis Hf0 : (0 <= RandomizeFactor config)%Q.
Hypothesis Hf1 : (RandomizeFactor config <= 1)%Q.

Lemma grownInterval_range (cur : Duration) :
  0 <= cur -> 0 <= grownInterval config cur <= MaxInterval config.
Proof.
  intros Hc. unfold grownInterval, rawInterval, float64_of_Duration.
  pose proof (inject_Z_nonneg cur Hc).
  assert (0 <= Duration_of_float64 (inject_Z cur * Multiplier config)%Q).
  { apply Duration_of_float64_pos. apply Qmult_le_0_compat; assumption. }
  lia.
Qed.

Lemma computeNextInterval_range (cur : Duration) (r : float64) :
  0 <= cur -> (0 <= r)%Q -> (r < 1)%Q ->
  0 <= computeNextInterval config cur r /\
  (inject_Z (computeNextInterval config cur r)
   <= inject_Z (MaxInterval config) * (1 + RandomizeFactor config))%Q.
Proof.
  intros Hc Hr0 Hr1.
  destruct (grownInterval_range cur Hc) as [Hg0 Hg1].
  pose proof (inject_Z_nonneg _ Hg0) as Hg0'.
  assert (Hg1' : (inject_Z (grownInterval config cur)
                  <= inject_Z (MaxInterval config))%Q)
    by (rewrite <- Zle_Qle; exact Hg1).
  assert (Hbound : (inject_Z (grownInterval config cur)
                    * (1 + RandomizeFactor config)
                    <= inject_Z (MaxInterval config)
                       * (1 + RandomizeFactor config))%Q)
    by (apply Qmult_le_compat_r; lra).
  unfold computeNextInterval.
  destruct (float_pos (RandomizeFactor config)) eqn:Hp.
  - apply float_pos_spec in Hp.
    destruct (jitterInterval_bounds config (grownInterval config cur) r
                Hp Hf1 Hr0 Hr1 Hg0) as [Hlo [_ Hhi]].
    split; [|lra].
    assert (H0 : (0 <= inject_Z (grownInterval config cur)
                       * (1 - RandomizeFactor config))%Q)
      by (apply Qmult_le_0_compat; lra).
    apply Qfloor_resp_le in H0. change (Qfloor 0) with 0 in H0. lia.
  - split; [exact Hg0|].
    assert (H0 : (0 <= inject_Z (grownInterval config cur)
                       * RandomizeFactor config)%Q)
      by (apply Qmult_le_0_compat; assumption).
    lra.
Qed.

Lemma currentIntervalAt_range (env : Env) :
  0 <= InitialInterval config ->
  (forall z, (0 <= rnd env z)%Q /\ (rnd env z < 1)%Q) ->
  forall k,
    0 <= currentIntervalAt config env (S k) /\
    (inject_Z (currentIntervalAt config env (S (S k)))
     <= inject_Z (MaxInterval config) * (1 + RandomizeFactor config))%Q.
Proof.
  intros Hi Hr k.
  assert (Hnn : forall j, 0 <= currentIntervalAt config env (S j)).
  { induction j as [|j IH]; [exact Hi|].
    change (currentIntervalAt config env (S (S j)))
      with (computeNextInterval config (currentIntervalAt config env (S j))
                                (rnd env (Z.of_nat (S j)))).
    apply computeNextInterval_range; [exact IH | apply Hr | apply Hr]. }
  split; [apply Hnn|].
  change (currentIntervalAt config env (S (S k)))
    with (computeNextInterval config (currentIntervalAt config env (S k))
                              (rnd env (Z.of_nat (S k)))).
  apply computeNextInterval_range; [apply Hnn | apply Hr | apply Hr].
Qed.
End DelayRange.

Lemma Retry_sleeps_are_current_intervals {St : Type}
  (op : St -> option error * St) (opts : list Option) (env : Env)
  (fuel : nat) (s : St) (x : option error) (s' : St) (t : list Event) :
  Retry (invoke op) opts env fuel s = (Return x, s', t) ->
  sleeps t = map (currentIntervalAt (applyOptions opts defaultConfig) env)
                 (seq 1 (List.length (calls t) - 1)).
Proof.
  intros Hrun. apply Retry_loop_schedule in Hrun. destruct Hrun as [Hs _].
  rewrite Hs at 1.
  apply (sleeps_schedule (applyOptions opts defaultConfig) env (calls t) 0).
Qed.

Lemma Retry_sleeps_range {St : Type}
  (op : St -> option error * St) (opts : list Option) (env : Env)
  (fuel : nat) (s : St) (x : option error) (s' : St) (t : list Event) :
  let config := applyOptions opts defaultConfig in
  0 <= InitialInterval config -> 0 <= MaxInterval config ->
  (0 <= Multiplier config)%Q ->
  (0 <= RandomizeFactor config)%Q -> (RandomizeFactor config <= 1)%Q ->
  (forall z, (0 <= rnd env z)%Q /\ (rnd env z < 1)%Q) ->
  Retry (invoke op) opts env fuel s = (Return x, s', t) ->
  Forall (fun d => 0 <= d) (sleeps t) /\
  hd (InitialInterval config) (sleeps t) = InitialInterval config /\
  Forall (fun d => (inject_Z d <= inject_Z (MaxInterval config)
                                  * (1 + RandomizeFactor config))%Q)
         (tl (sleeps t)).
Proof.
  intros config Hi Hmax Hmul Hf0 Hf1 Hr Hrun.
  rewrite (Retry_sleeps_are_current_intervals op opts env fuel s x s' t Hrun).
  fold config.
  pose proof (currentIntervalAt_range config Hmax Hmul Hf0 Hf1 env Hi Hr)
    as Hrange.
  split; [|split].
  - apply Forall_forall. intros d Hin. apply in_map_iff in Hin.
    destruct Hin as [j [<- Hj]]. apply in_seq in Hj.
    destruct j as [|j]; [lia|]. apply Hrange.
  - destruct (List.length (calls t) - 1)%nat; reflexivity.
  - destruct (List.length (calls t) - 1)%nat as [|m]; [constructor|].
    cbn [seq map tl]. apply Forall_forall. intros d Hin.
    apply in_map_iff in Hin. destruct Hin as [j [<- Hj]]. apply in_seq in Hj.
    destruct j as [|[|j]]; try lia. apply Hrange.
Qed.






(** ** QuickRetry *)

(** X8: [QuickRetry] runs the function at most 5 times and returns within
    5 rounds; with draws in [0,1) its first sleep is 100ms, no sleep is
    negative and every later sleep is at most 6.5s (the 5s cap plus 30%
    jitter). *)
Theorem QuickRetry_bounds :
  forall (St : Type) (op : St -> option error * St) (env : Env) (fuel : nat)
         (s : St),
    Z.of_nat (List.length (calls (snd (QuickRetry (invoke op) env fuel s))))
    <= 5 /\
    ((5 <= fuel)%nat ->
     fst (fst (QuickRetry (invoke op) env fuel s)) <> OutOfFuel) /\
    ((forall z, (0 <= rnd env z)%Q /\ (rnd env z < 1)%Q) ->
     forall x s' t,
       QuickRetry (invoke op) env fuel s = (Return x, s', t) ->
       Forall (fun d => 0 <= d) (sleeps t) /\
       hd (100 * Millisecond) (sleeps t) = 100 * Millisecond /\
       Forall (fun d => d <= 6500 * Millisecond) (tl (sleeps t))).
Proof.
  intros St op env fuel s. unfold QuickRetry.
  set (config := applyOptions quickOpts defaultConfig).
  assert (Hn : 0 < MaxRetries config) by reflexivity.
  split; [|split].
  - pose proof (Retry_loop_calls_bound op config env Hn fuel 0
                  (InitialInterval config) s Hn) as H.
    unfold Retry. fold config. change (MaxRetries config) with 5 in H. lia.
  - intros Hf. unfold Retry. fold config.
    apply Retry_loop_returns; [exact Hn | exact Hn |].
    change (MaxRetries config) with 5. simpl. lia.
  - intros Hr x s' t Hrun.
    destruct (Retry_sleeps_range op quickOpts env fuel s x s' t) as [H1 [H2 H3]];
      try exact Hrun; try exact Hr; try discriminate.
    split; [exact H1|]. split; [exact H2|].
    eapply Forall_impl; [|exact H3].
    intros d Hd. cbv beta in Hd.
    change (inject_Z (MaxInterval (applyOptions quickOpts defaultConfig))
            * (1 + RandomizeFactor (applyOptions quickOpts defaultConfig)))%Q
      with (inject_Z (5 * Second) * (1 + (3 # 10)))%Q in Hd.
    assert (Hq : (inject_Z d <= inject_Z (6500 * Millisecond))%Q).
    { eapply Qle_trans; [exact Hd|]. vm_compute. discriminate. }
    rewrite <- Zle_Qle in Hq. exact Hq.
Qed.

Lemma QuickRetry_bounds_witness :
  Z.of_nat (List.length
              (calls (snd (QuickRetry (invoke (failAlways (errorString "boom")))
                                      env0 9 0%nat)))) <= 5.
Proof.
  apply (proj1 (QuickRetry_bounds nat (failAlways (errorString "boom"))
                  env0 9%nat 0%nat)).
Defined.

(** ** Options: lists and order *)

Lemma applyOptions_app (l1 l2 : list Option) (c : RetryConfig) :
  applyOptions (l1 ++ l2) c = applyOptions l2 (applyOptions l1 c).
Proof. unfold applyOptions. apply fold_left_app. Qed.

Lemma applyOptions_leaves (F : Field) (l : list Option) :
  (forall o, In o l -> leaves o F) ->
  forall c, field F (applyOptions l c) = field F c.
Proof.
  induction l as [|o l IH]; intros Hl c; [reflexivity|].
  change (applyOptions (o :: l) c) with (applyOptions l (o c)).
  rewrite IH by (intros o' Ho'; apply Hl; right; exact Ho').
  apply Hl. left. reflexivity.
Qed.

(** X9: in a list of options a field ends up with the value of the last
    option that sets it, whatever comes before and as long as the options
    after it leave the field alone; a field that no option of the list
    touches keeps the value it had. *)
Theorem applyOptions_last_setter_wins :
  forall (F : Field) (before after : list Option) (o : Option)
         (v : FieldValue) (c : RetryConfig),
    (sets o F v ->
     (forall o', In o' after -> leaves o' F) ->
     field F (applyOptions (before ++ o :: after) c) = v) /\
    ((forall o', In o' after -> leaves o' F) ->
     field F (applyOptions after c) = field F c).
Proof.
  intros F before after o v c. split.
  - intros Hset Hafter. rewrite applyOptions_app.
    change (applyOptions (o :: after) (applyOptions before c))
      with (applyOptions after (o (applyOptions before c))).
    rewrite applyOptions_leaves by exact Hafter. apply Hset.
  - intros Hafter. apply applyOptions_leaves. exact Hafter.
Qed.

Lemma applyOptions_last_setter_wins_witness :
  field FMaxRetries
        (applyOptions ([Database; Tries 3] ++ Tries 7 :: [NoJitter; Max 5])
                      defaultConfig) = VInt 7.
Proof.
  apply (proj1 (applyOptions_last_setter_wins FMaxRetries [Database; Tries 3]
                  [NoJitter; Max 5] (Tries 7) (VInt 7) defaultConfig)).
  - intros c. reflexivity.
  - intros o' [<-|[<-|[]]]; intros c; reflexivity.
Defined.

(** An option cannot both set a field and leave it alone. *)
Ltac refute_leaves H :=
  let H0 := fresh in
  let H1 := fresh in
  pose proof (H configZeros) as H0; pose proof (H configOnes) as H1;
  compute in H0, H1; congruence.

Ltac refute_disjoint H F :=
  let HF := fresh in
  destruct (H F) as [HF|HF]; refute_leaves HF.

(** X10: two options of the vocabulary that have no field in common
    commute: applying them in either order gives the same configuration. *)
Theorem options_on_disjoint_fields_commute :
  forall (o1 o2 : OptionCall),
    (forall F, leaves (option_of o1) F \/ leaves (option_of o2) F) ->
    forall c, option_of o1 (option_of o2 c) = option_of o2 (option_of o1 c).
Proof.
  intros o1 o2 H c.
  destruct o1, o2;
    first [ reflexivity
          | exfalso;
            first [ refute_disjoint H FInitialInterval
                  | refute_disjoint H FMaxInterval
                  | refute_disjoint H FMaxRetries
                  | refute_disjoint H FMultiplier
                  | refute_disjoint H FMaxElapsedTime
                  | refute_disjoint H FRandomizeFactor ] ].
Qed.

Lemma options_on_disjoint_fields_commute_witness :
  option_of CallQuick (option_of (CallMaxTime Minute) defaultConfig)
  = option_of (CallMaxTime Minute) (option_of CallQuick defaultConfig).
Proof.
  apply (options_on_disjoint_fields_commute CallQuick (CallMaxTime Minute)).
  intros F. destruct F;
    first [ left; intros c; reflexivity | right; intros c; reflexivity ].
Defined.

(** ** The helpers as wrappers of Retry *)

Lemma Retry_loop_ext {St : Type} (fn1 fn2 : RetryableFunc St)
  (config : RetryConfig) (env : Env) :
  (forall s, fn1 s = fn2 s) ->
  forall fuel attempts cur s,
    Retry_loop fn1 config env fuel attempts cur s
    = Retry_loop fn2 config env fuel attempts cur s.
Proof.
  intros Hext. induction fuel as [|fuel IH]; intros attempts cur s;
    [reflexivity|].
  simpl. rewrite Hext. destruct (fn2 s) as [[[e|] s1] t1]; [|reflexivity].
  destruct (errors_As_permanent e); [reflexivity|].
  destruct (_ && _); [reflexivity|].
  destruct (_ && _); [reflexivity|].
  rewrite IH. reflexivity.
Qed.

Section Condition.
Context {St : Type}.
Variable op : St -> option error * St.
Variable condition : error -> bool.
Variable config : RetryConfig.
Variable env : Env.
Hypothesis Hunmarked :
  forall s e, fst (op s) = Some e -> errors_As_permanent e = None.

(** The closure that [RetryWithCondition] hands to [Retry]. *)
Let conditioned : RetryableFunc St :=
  fun s =>
    let '(err, s1, t1) := invoke op s in
    match err with
    | Some e =>
        if negb (condition e)
        then (Some (permanentError (Some e)), s1, t1)
        else (err, s1, t1)
    | None => (err, s1, t1)
    end.

Lemma conditioned_eq (s : St) :
  conditioned s =
  match fst (op s) with
  | Some e =>
      if condition e
      then (Some e, snd (op s), [EvCall (Some e)])
      else (Some (permanentError (Some e)), snd (op s), [EvCall (Some e)])
  | None => (None, snd (op s), [EvCall None])
  end.
Proof.
  unfold conditioned. rewrite invoke_eq.
  destruct (fst (op s)) as [e|]; [destruct (condition e)|]; reflexivity.
Qed.

Lemma condition_loop fuel :
  forall attempts cur s x s' t,
    Retry_loop conditioned config env fuel attempts cur s = (Return x, s', t) ->
    calls t <> [] /\
    x = last (calls t) None /\
    Forall (fun r => exists e, r = Some e /\ condition e = true)
           (removelast (calls t)).
Proof.
  induction fuel as [|fuel IH]; intros attempts cur s x s' t Hrun.
  - simpl in Hrun. discriminate.
  - cbn [Retry_loop] in Hrun. rewrite conditioned_eq in Hrun.
    destruct (fst (op s)) as [e|] eqn:He.
    + destruct (condition e) eqn:Hc.
      * rewrite (Hunmarked s e He) in Hrun.
        destruct (_ && _).
        { inversion Hrun; subst. simpl.
          repeat split; [discriminate | constructor]. }
        destruct (_ && _).
        { inversion Hrun; subst. simpl.
          repeat split; [discriminate | constructor]. }
        destruct (Retry_loop _ _ _ fuel _ _ _) as [[r2 s2] t2] eqn:Hrec.
        inversion Hrun; subst. apply IH in Hrec.
        destruct Hrec as [Hne [Hx Hall]].
        rewrite calls_call_sleep. split; [discriminate|]. split.
        -- rewrite last_cons_nonempty by exact Hne. exact Hx.
        -- rewrite removelast_cons_nonempty by exact Hne.
           constructor; [exists e; auto | exact Hall].
      * cbn [errors_As_permanent] in Hrun. inversion Hrun; subst. simpl.
        repeat split; [discriminate | constructor].
    + inversion Hrun; subst. simpl.
      repeat split; [discriminate | constructor].
Qed.
End Condition.

(** X11: for a function whose own errors carry no marker,
    [RetryWithCondition] returns exactly what the last run of the function
    returned, never the [permanentError] wrapper it uses inside; and every
    earlier run failed with an error the predicate accepts, so an error the
    predicate rejects always ends the run. *)
Theorem RetryWithCondition_returns_own_error :
  forall (St : Type) (op : St -> option error * St) (condition : error -> bool)
         (opts : list Option) (env : Env) (fuel : nat) (s : St)
         (x : option error) (s' : St) (t : list Event),
    (forall s e, fst (op s) = Some e -> errors_As_permanent e = None) ->
    RetryWithCondition (invoke op) condition opts env fuel s
    = (Return x, s', t) ->
    calls t <> [] /\
    x = last (calls t) None /\
    Forall (fun r => exists e, r = Some e /\ condition e = true)
           (removelast (calls t)).
Proof.
  intros St op condition opts env fuel s x s' t Hun Hrun.
  unfold RetryWithCondition, Retry in Hrun.
  eapply condition_loop; [exact Hun | exact Hrun].
Qed.

Lemma RetryWithCondition_returns_own_error_witness :
  let t := [EvCall (Some (errorString "boom"))] in
  calls t <> [] /\
  Some (errorString "boom") = last (calls t) None /\
  Forall (fun r => exists e, r = Some e /\ (fun _ : error => false) e = true)
         (removelast (calls t)).
Proof.
  intros t.
  apply (RetryWithCondition_returns_own_error nat
           (failAlways (errorString "boom")) (fun _ => false) [Tries 5] env0
           9%nat 0%nat (Some (errorString "boom")) 1%nat t).
  - intros s e H. inversion H. reflexivity.
  - vm_compute. reflexivity.
Defined.

(** X12: with a predicate that accepts every error [RetryWithCondition]
    is [Retry]: same result, same state, same events. *)
Theorem RetryWithCondition_accept_all_is_Retry :
  forall (St : Type) (fn : RetryableFunc St) (condition : error -> bool)
         (opts : list Option) (env : Env) (fuel : nat) (s : St),
    (forall e, condition e = true) ->
    RetryWithCondition fn condition opts env fuel s = Retry fn opts env fuel s.
Proof.
  intros St fn condition opts env fuel s Hc.
  unfold RetryWithCondition, Retry. apply Retry_loop_ext.
  intros s0. destruct (fn s0) as [[[e|] s1] t1]; [|reflexivity].
  rewrite Hc. reflexivity.
Qed.

Lemma RetryWithCondition_accept_all_is_Retry_witness :
  RetryWithCondition (invoke (failTwice (errorString "e1") (errorString "e2")))
                     (fun _ => true) scenarioOpts env0 5 0%nat
  = Retry (invoke (failTwice (errorString "e1") (errorString "e2")))
          scenarioOpts env0 5 0%nat.
Proof.
  apply (RetryWithCondition_accept_all_is_Retry nat
           (invoke (failTwice (errorString "e1") (errorString "e2")))
           (fun _ => true) scenarioOpts env0 5%nat 0%nat).
  intros e. reflexivity.
Defined.

(** X13: with a context that is never done [RetryWithContext] is [Retry]:
    same result, same state, same events. *)
Theorem RetryWithContext_active_is_Retry :
  forall (St : Type) (ctx : St -> ctxState) (fn : RetryableFunc St)
         (opts : list Option) (env : Env) (fuel : nat) (s : St),
    (forall s, ctx s = ctxActive) ->
    RetryWithContext ctx fn opts env fuel s = Retry fn opts env fuel s.
Proof.
  intros St ctx fn opts env fuel s Hctx.
  unfold RetryWithContext, Retry. apply Retry_loop_ext.
  intros s0. rewrite Hctx. reflexivity.
Qed.

Lemma RetryWithContext_active_is_Retry_witness :
  RetryWithContext (fun _ : nat => ctxActive)
                   (invoke (failTwice (errorString "e1") (errorString "e2")))
                   scenarioOpts env0 5 0%nat
  = Retry (invoke (failTwice (errorString "e1") (errorString "e2")))
          scenarioOpts env0 5 0%nat.
Proof.
  apply (RetryWithContext_active_is_Retry nat (fun _ => ctxActive)
           (invoke (failTwice (errorString "e1") (errorString "e2")))
           scenarioOpts env0 5%nat 0%nat).
  intros s. reflexivity.
Defined.

Section LoggingTransparent.
Context {St : Type}.
Variable op : St -> option error * St.
Variable config : RetryConfig.
Variable env : Env.

Let logged : RetryableFunc (Z * St) :=
  fun '(attempt, s) =>
    let attempt := attempt + 1 in
    let '(err, s1, t1) := invoke op s in
    match err with
    | Some e => (err, (attempt, s1), t1 ++ [EvLog (failedLine attempt e)])
    | None => (err, (attempt, s1), t1)
    end.

Lemma logged_eq' (a : Z) (s : St) :
  logged (a, s) =
  match fst (op s) with
  | Some e => (Some e, (a + 1, snd (op s)),
               [EvCall (Some e); EvLog (failedLine (a + 1) e)])
  | None => (None, (a + 1, snd (op s)), [EvCall None])
  end.
Proof.
  unfold logged. rewrite invoke_eq. destruct (fst (op s)); reflexivity.
Qed.

Lemma logging_transparent fuel :
  forall attempts cur a s,
    fst (fst (Retry_loop logged config env fuel attempts cur (a, s)))
    = fst (fst (Retry_loop (invoke op) config env fuel attempts cur s)) /\
    snd (snd (fst (Retry_loop logged config env fuel attempts cur (a, s))))
    = snd (fst (Retry_loop (invoke op) config env fuel attempts cur s)) /\
    unlogged (snd (Retry_loop logged config env fuel attempts cur (a, s)))
    = snd (Retry_loop (invoke op) config env fuel attempts cur s).
Proof.
  induction fuel as [|fuel IH]; intros attempts cur a s.
  - repeat split.
  - cbn [Retry_loop]. rewrite logged_eq', invoke_eq.
    destruct (fst (op s)) as [e|]; [|repeat split].
    destruct (errors_As_permanent e); [repeat split|].
    destruct (_ && _); [repeat split|].
    destruct (_ && _); [repeat split|].
    specialize (IH (attempts + 1)
                   (computeNextInterval config cur (rnd env (attempts + 1)))
                   (a + 1) (snd (op s))).
    destruct (Retry_loop logged _ _ fuel _ _ _) as [[r1 [a1 s1]] t1].
    destruct (Retry_loop (invoke op) _ _ fuel _ _ _) as [[r2 s2] t2].
    simpl in *. destruct IH as [H1 [H2 H3]]. subst.
    repeat split.
Qed.
End LoggingTransparent.

(** X14: logging changes nothing but the log: [RetryWithLogging] returns
    the same result and leaves the same state as [Retry], and its events
    without the log lines are the events of [Retry]. *)
Theorem RetryWithLogging_only_adds_log_lines :
  forall (St : Type) (op : St -> option error * St) (opts : list Option)
         (env : Env) (fuel : nat) (s : St),
    fst (RetryWithLogging (invoke op) opts env fuel s)
    = fst (Retry (invoke op) opts env fuel s) /\
    unlogged (snd (RetryWithLogging (invoke op) opts env fuel s))
    = snd (Retry (invoke op) opts env fuel s).
Proof.
  intros St op opts env fuel s.
  pose proof (logging_transparent op (applyOptions opts defaultConfig) env fuel
                0 (InitialInterval (applyOptions opts defaultConfig)) 0 s)
    as H.
  unfold RetryWithLogging, Retry.
  match goal with
  | |- context [Retry_loop ?f _ _ fuel 0 _ (0, s)] =>
      change (Retry_loop f (applyOptions opts defaultConfig) env fuel 0
                (InitialInterval (applyOptions opts defaultConfig)) (0, s))
        with (Retry_loop
                (fun '(attempt, s) =>
                   let attempt := attempt + 1 in
                   let '(err, s1, t1) := invoke op s in
                   match err with
                   | Some e =>
                       (err, (attempt, s1),
                        t1 ++ [EvLog (failedLine attempt e)])
                   | None => (err, (attempt, s1), t1)
                   end)
                (applyOptions opts defaultConfig) env fuel 0
                (InitialInterval (applyOptions opts defaultConfig)) (0, s))
  end.
  destruct (Retry_loop (fun '(attempt, s) => _) _ _ fuel 0 _ (0, s))
    as [[r1 [a1 s1]] t1].
  destruct (Retry_loop (invoke op) _ _ fuel 0 _ s) as [[r2 s2] t2].
  simpl in *. destruct H as [H1 [H2 H3]]. subst. split; reflexivity.
Qed.

Section CancelledSleeps.
Context {St : Type}.
Variable ctx : St -> ctxState.
Variable fn : RetryableFunc St.
Variable config : RetryConfig.
Variable env : Env.
Variable s0 : St.
Variable e : error.
Hypothesis Hdone : ctx_Err (ctx s0) = Some e.
Hypothesis Hn : 0 < MaxRetries config.
Hypothesis Htime :
  MaxElapsedTime config <= 0 \/ forall k, since env k < MaxElapsedTime config.

Let guarded : RetryableFunc St :=
  fun s => match ctx_Err (ctx s) with
           | Some e => (Some e, s, [])
           | None => fn s
           end.

Lemma cancelled_loop_sleeps fuel :
  forall (k : nat),
    Z.of_nat k < MaxRetries config ->
    (Z.to_nat (MaxRetries config - Z.of_nat k) <= fuel)%nat ->
    Retry_loop guarded config env fuel (Z.of_nat k)
               (currentIntervalAt config env (S k)) s0
    = (Return (Some e), s0,
       map EvSleep
           (map (currentIntervalAt config env)
                (seq (S k) (Z.to_nat (MaxRetries config - Z.of_nat k - 1))))).
Proof.
  pose proof (ctx_Err_not_permanent _ _ Hdone) as Hnp.
  induction fuel as [|fuel IH]; intros k Hk Hf; [lia|].
  cbn [Retry_loop]. unfold guarded at 1. rewrite Hdone, Hnp.
  destruct (Z.eq_dec (Z.of_nat k + 1) (MaxRetries config)) as [Heq|Hne].
  - replace ((0 <? MaxRetries config)
             && (MaxRetries config <=? Z.of_nat k + 1)) with true.
    2:{ symmetry. apply andb_true_iff.
        split; [apply Z.ltb_lt | apply Z.leb_le]; lia. }
    replace (Z.to_nat (MaxRetries config - Z.of_nat k - 1)) with 0%nat by lia.
    reflexivity.
  - replace ((0 <? MaxRetries config)
             && (MaxRetries config <=? Z.of_nat k + 1)) with false.
    2:{ symmetry. apply andb_false_iff. right. apply Z.leb_gt. lia. }
    replace ((0 <? MaxElapsedTime config)
             && (MaxElapsedTime config <=? since env (Z.of_nat k + 1)))
      with false.
    2:{ symmetry. apply andb_false_iff.
        destruct Htime as [H|H]; [left; apply Z.ltb_ge; lia|].
        right. apply Z.leb_gt. apply H. }
    replace (Z.of_nat k + 1) with (Z.of_nat (S k)) by lia.
    change (computeNextInterval config (currentIntervalAt config env (S k))
              (rnd env (Z.of_nat (S k))))
      with (currentIntervalAt config env (S (S k))).
    rewrite (IH (S k)) by lia.
    replace (Z.to_nat (MaxRetries config - Z.of_nat k - 1))
      with (S (Z.to_nat (MaxRetries config - Z.of_nat (S k) - 1))) by lia.
    reflexivity.
Qed.
End CancelledSleeps.

(** X15: a context that is already done does not shorten the run of
    [RetryWithContext]: with [MaxRetries = n > 0] (and the time cap not
    reached) it goes through all [n] rounds, sleeping the [n - 1]
    intervals of the schedule, and only then returns the context's
    error. *)
Theorem RetryWithContext_cancelled_sleeps_whole_schedule :
  forall (St : Type) (ctx : St -> ctxState) (fn : RetryableFunc St)
         (opts : list Option) (env : Env) (s0 : St) (fuel : nat),
    let config := applyOptions opts defaultConfig in
    ctx s0 <> ctxActive ->
    0 < MaxRetries config ->
    (MaxElapsedTime config <= 0 \/
     forall k, since env k < MaxElapsedTime config) ->
    (Z.to_nat (MaxRetries config) <= fuel)%nat ->
    RetryWithContext ctx fn opts env fuel s0
    = (Return (ctx_Err (ctx s0)), s0,
       map EvSleep
           (map (currentIntervalAt config env)
                (seq 1 (Z.to_nat (MaxRetries config - 1))))).
Proof.
  intros St ctx fn opts env s0 fuel config Hctx Hn Ht Hf.
  destruct (ctx_Err (ctx s0)) as [e|] eqn:He.
  2:{ destruct (ctx s0); simpl in He; congruence. }
  pose proof (cancelled_loop_sleeps ctx fn config env s0 e He Hn Ht fuel 0%nat
                ltac:(simpl; lia) ltac:(simpl; lia)) as H.
  simpl Z.of_nat in H. rewrite Z.sub_0_r in H.
  unfold RetryWithContext, Retry. fold config. exact H.
Qed.

Lemma RetryWithContext_cancelled_sleeps_whole_schedule_witness :
  RetryWithContext (fun _ : nat => ctxCanceled)
                   (invoke (failAlways (errorString "boom")))
                   scenarioOpts env0 3 0%nat
  = (Return (Some Canceled), 0%nat,
     map EvSleep
         (map (currentIntervalAt (applyOptions scenarioOpts defaultConfig) env0)
              (seq 1 (Z.to_nat (3 - 1))))).
Proof.
  apply (RetryWithContext_cancelled_sleeps_whole_schedule nat
           (fun _ => ctxCanceled) (invoke (failAlways (errorString "boom")))
           scenarioOpts env0 0%nat 3%nat).
  - discriminate.
  - reflexivity.
  - right. intros k. reflexivity.
  - simpl. lia.
Defined.

(** ** DoWithAttemptsContext *)

Section DoWithAttemptsContextFunc.
Context {St : Type}.
Variable ctx : St -> ctxState.
Variable op : Attempt -> St -> option error * St.
Variable config : RetryConfig.
Variable env : Env.

Lemma IterFuncContext_loop_outcome fuel :
  forall attempts cd ni st fin st' t,
    IterFunc.returned st = None ->
    IterFunc.Attempts_loop config env
      (IterFuncContext.guardedYield (fun st => ctx (IterFunc.prog st))
         (IterFunc.DoWithAttempts_body (invokeWith op)))
      fuel attempts cd ni st
    = (fin, st', t) ->
    match IterFunc.returned st' with
    | Some x => calls t <> [] /\ x = outcome (last (calls t) None)
    | None => IterFunc.finalErr st' = last (calls t) (IterFunc.finalErr st)
              /\ Forall retryable (calls t)
    end.
Proof.
  induction fuel as [|fuel IH]; intros attempts cd ni st fin st' t Hst Hrun.
  - simpl in Hrun. inversion Hrun; subst. rewrite Hst.
    split; [reflexivity | constructor].
  - cbn [IterFunc.Attempts_loop] in Hrun.
    match type of Hrun with
    | (if ?b then _ else _) = _ => destruct b
    end.
    { inversion Hrun; subst. rewrite Hst. split; [reflexivity | constructor]. }
    unfold IterFuncContext.guardedYield at 1 in Hrun.
    destruct (ctx_Err (ctx (IterFunc.prog st))).
    { cbn [negb] in Hrun. inversion Hrun; subst. rewrite Hst.
      rewrite calls_sleep_prefix. split; [reflexivity | constructor]. }
    rewrite IterFunc_body_eq in Hrun.
    destruct (fst (op _ (IterFunc.prog st))) as [e|].
    + destruct (errors_As_permanent e) as [inner|] eqn:Hp.
      * cbn [negb] in Hrun. inversion Hrun; subst. cbn [IterFunc.returned].
        rewrite calls_sleep_prefix. simpl. rewrite Hp.
        repeat split; discriminate.
      * cbn [negb] in Hrun.
        destruct (IterFunc.Attempts_loop _ _ _ fuel _ _ _ _)
          as [[fin2 st2] t2] eqn:Hrec.
        inversion Hrun; subst.
        apply IH in Hrec; [|reflexivity].
        rewrite calls_sleep_prefix. rewrite calls_yield_call.
        destruct (IterFunc.returned st') as [x|].
        -- destruct Hrec as [Hne Hx]. split; [discriminate|].
           rewrite last_cons_nonempty by exact Hne. exact Hx.
        -- destruct Hrec as [Hf Hall]. cbn [IterFunc.finalErr] in Hf.
           split.
           ++ rewrite last_cons_default. exact Hf.
           ++ constructor; [exists e; auto | exact Hall].
    + cbn [negb] in Hrun. inversion Hrun; subst. cbn [IterFunc.returned].
      rewrite calls_sleep_prefix. simpl.
      repeat split; discriminate.
Qed.
End DoWithAttemptsContextFunc.

Lemma outcome_last_retryable (l : list (option error)) :
  Forall retryable l -> outcome (last l None) = last l None.
Proof.
  intros Hall. destruct l as [|x l]; [reflexivity|].
  apply outcome_retryable. apply retryable_last; [exact Hall | discriminate].
Qed.

(** X16: the [func] revision of [DoWithAttemptsContext] never reports the
    context: it returns what the last run of the callback gives (nil for a
    success, the error inside the marker, or the last error), and nil when
    the callback never ran.  So with a context that is already done it
    returns nil without running the callback. *)
Theorem IterFunc_DoWithAttemptsContext_cancelled_is_success :
  forall (St : Type) (ctx : St -> ctxState)
         (op : Attempt -> St -> option error * St) (opts : list Option)
         (env : Env) (fuel : nat) (s : St),
    (forall x s' t,
        IterFuncContext.DoWithAttemptsContext ctx (invokeWith op) opts env
                                              fuel s = (Return x, s', t) ->
        x = outcome (last (calls t) None)) /\
    (ctx s <> ctxActive ->
     IterFuncContext.DoWithAttemptsContext ctx (invokeWith op) opts env
                                           (S fuel) s
     = (Return None, s, [EvYield (firstAttempt (since env 1))])).
Proof.
  intros St ctx op opts env fuel s. split.
  - intros x s' t.
    unfold IterFuncContext.DoWithAttemptsContext,
      IterFuncContext.AttemptsWithContext, IterFunc.Attempts.
    destruct (IterFunc.Attempts_loop _ _ _ fuel _ _ _ _)
      as [[fin st'] t'] eqn:Hrun.
    apply IterFuncContext_loop_outcome in Hrun; [|reflexivity].
    intros Hret. destruct (IterFunc.returned st') as [r|].
    + inversion Hret; subst. apply Hrun.
    + destruct fin; [|discriminate]. inversion Hret; subst.
      destruct Hrun as [Hf Hall]. cbn [IterFunc.finalErr] in Hf.
      rewrite Hf. symmetry. apply outcome_last_retryable. exact Hall.
  - intros Hctx.
    unfold IterFuncContext.DoWithAttemptsContext,
      IterFuncContext.AttemptsWithContext, IterFunc.Attempts.
    cbn [IterFunc.Attempts_loop].
    change (0 + 1) with 1. cbn [Z.ltb Z.compare Pos.compare Pos.compare_cont].
    unfold IterFuncContext.guardedYield. cbn [IterFunc.prog].
    destruct (ctx_Err (ctx s)) eqn:He.
    + reflexivity.
    + destruct (ctx s); simpl in He; congruence.
Qed.

Lemma IterFunc_DoWithAttemptsContext_cancelled_is_success_witness :
  IterFuncContext.DoWithAttemptsContext (fun _ : nat => ctxCanceled)
    (invokeWith failNumbered) [Tries 3] env0 4 0%nat
  = (Return None, 0%nat, [EvYield (firstAttempt (since env0 1))]).
Proof.
  apply (proj2 (IterFunc_DoWithAttemptsContext_cancelled_is_success nat
                  (fun _ => ctxCanceled) failNumbered [Tries 3] env0
                  3%nat 0%nat)).
  discriminate.
Defined.

Section DoWithAttemptsContextSeq.
Context {St : Type}.
Variable getNextInterval : Z -> Duration -> float64 -> Duration.
Variable ctx : St -> ctxState.
Variable wait : Z -> St -> St.
Variable op : Attempt -> St -> option error * St.
Variable config : RetryConfig.
Variable env : Env.

Let ctx' : IterSeq.DoState St -> ctxState := fun st => ctx (IterSeq.prog st).
Let wait' : Z -> IterSeq.DoState St -> IterSeq.DoState St :=
  fun i st => IterSeq.mkDoState (IterSeq.lastErr st) (IterSeq.returned st)
                                (wait i (IterSeq.prog st)).

Lemma IterSeqContext_loop_outcome fuel :
  forall i cur elapsed st fin st' t,
    IterSeq.returned st = None ->
    IterSeqContext.Attempts_loop getNextInterval ctx' wait' config env
      (IterSeq.DoWithAttempts_body (invokeWith op)) fuel i cur elapsed st
    = (fin, st', t) ->
    match IterSeq.returned st' with
    | Some x => calls t <> [] /\ x = outcome (last (calls t) None)
                /\ ~ retryable (last (calls t) None)
    | None => IterSeq.lastErr st' = last (calls t) (IterSeq.lastErr st)
              /\ Forall retryable (calls t)
    end.
Proof.
  induction fuel as [|fuel IH]; intros i cur elapsed st fin st' t Hst Hrun.
  - simpl in Hrun. inversion Hrun; subst. rewrite Hst.
    split; [reflexivity | constructor].
  - cbn [IterSeqContext.Attempts_loop] in Hrun.
    destruct (ctx_Err (ctx' st)).
    { inversion Hrun; subst. rewrite Hst. split; [reflexivity | constructor]. }
    destruct (_ && _).
    { inversion Hrun; subst. rewrite Hst. split; [reflexivity | constructor]. }
    destruct (_ && _).
    { inversion Hrun; subst. rewrite Hst. split; [reflexivity | constructor]. }
    set (waited := if 0 <? i then wait' i st else st) in *.
    assert (Hw : IterSeq.returned waited = None
                 /\ IterSeq.lastErr waited = IterSeq.lastErr st).
    { unfold waited, wait'. destruct (0 <? i); simpl; auto. }
    destruct Hw as [Hw1 Hw2].
    match type of Hrun with
    | (if ?b then _ else _) = _ => destruct b
    end.
    { inversion Hrun; subst. rewrite Hw1, Hw2.
      split; [reflexivity | constructor]. }
    assert (Ht0 : forall (tl : list Event),
               calls (snd (if 0 <? i
                           then (since env (i + 1), [EvSleep cur])
                           else (elapsed, [])) ++ tl) = calls tl)
      by (intros tl; destruct (0 <? i); reflexivity).
    destruct (if 0 <? i then (since env (i + 1), [EvSleep cur])
              else (elapsed, [])) as [elapsed' t0].
    cbn [snd] in Ht0.
    rewrite IterSeq_body_eq in Hrun.
    destruct (fst (op _ (IterSeq.prog waited))) as [e|].
    + destruct (errors_As_permanent e) as [inner|] eqn:Hp.
      * cbn [negb] in Hrun. inversion Hrun; subst. cbn [IterSeq.returned].
        rewrite Ht0. simpl. rewrite Hp.
        repeat split; try discriminate.
        intros [e' [He' Hp']]. inversion He'; subst. congruence.
      * cbn [negb] in Hrun.
        destruct (IterSeqContext.Attempts_loop _ _ _ _ _ _ fuel _ _ _ _)
          as [[fin2 st2] t2] eqn:Hrec.
        inversion Hrun; subst.
        apply IH in Hrec; [|reflexivity].
        rewrite Ht0. rewrite calls_yield_call.
        destruct (IterSeq.returned st') as [x|].
        -- destruct Hrec as [Hne [Hx Hnr]]. split; [discriminate|].
           rewrite last_cons_nonempty by exact Hne. split; assumption.
        -- destruct Hrec as [Hf Hall]. cbn [IterSeq.lastErr] in Hf.
           split.
           ++ rewrite last_cons_default. exact Hf.
           ++ constructor; [exists e; auto | exact Hall].
    + cbn [negb] in Hrun. inversion Hrun; subst. cbn [IterSeq.returned].
      rewrite Ht0. simpl.
      repeat split; try discriminate.
      intros [e' [He' _]]. discriminate.
Qed.
End DoWithAttemptsContextSeq.

(** X17: in the [iter.Seq] revision of [DoWithAttemptsContext] a context
    that is done when the sequence ends takes precedence over a pending
    retryable error: if no run of the callback succeeded or returned a
    marked error and the context is done in the final state, the context's
    error is returned; with the context still active the last error of the
    callback is returned.  A context that is already done at the start
    gives the context's error at once, without running the callback and
    without sleeping. *)
Theorem IterSeq_DoWithAttemptsContext_cancellation_wins :
  forall (St : Type) (getNextInterval : Z -> Duration -> float64 -> Duration)
         (ctx : St -> ctxState) (wait : Z -> St -> St)
         (op : Attempt -> St -> option error * St) (opts : list Option)
         (env : Env) (fuel : nat) (s : St),
    (forall x s' t,
        IterSeqContext.DoWithAttemptsContext getNextInterval ctx wait
          (invokeWith op) opts env fuel s = (Return x, s', t) ->
        Forall retryable (calls t) ->
        (ctx s' <> ctxActive -> x = ctx_Err (ctx s')) /\
        (ctx s' = ctxActive -> calls t <> [] -> x = last (calls t) None)) /\
    (ctx s <> ctxActive ->
     IterSeqContext.DoWithAttemptsContext getNextInterval ctx wait
       (invokeWith op) opts env (S fuel) s
     = (Return (ctx_Err (ctx s)), s, [])).
Proof.
  intros St getNextInterval ctx wait op opts env fuel s. split.
  - intros x s' t.
    unfold IterSeqContext.DoWithAttemptsContext,
      IterSeqContext.AttemptsWithContext.
    destruct (IterSeqContext.Attempts_loop _ _ _ _ _ _ fuel _ _ _ _)
      as [[fin st'] t'] eqn:Hrun.
    apply IterSeqContext_loop_outcome in Hrun; [|reflexivity].
    intros Hret Hall.
    destruct (IterSeq.returned st') as [r|].
    + inversion Hret; subst. destruct Hrun as [Hne [_ Hnr]].
      exfalso. apply Hnr. apply retryable_last; assumption.
    + destruct fin; [|discriminate].
      destruct Hrun as [Hf _]. cbn [IterSeq.lastErr] in Hf.
      destruct (ctx_Err (ctx (IterSeq.prog st'))) as [e|] eqn:He.
      * inversion Hret; subst. split.
        -- intros _. symmetry. exact He.
        -- intros Ha. rewrite Ha in He. discriminate.
      * split.
        -- intros Hc. destruct (ctx (IterSeq.prog st')) eqn:E;
             simpl in He; try discriminate.
           destruct (IterSeq.lastErr st'); inversion Hret; subst;
             congruence.
        -- intros Ha Hne.
           destruct (IterSeq.lastErr st') as [e0|]; inversion Hret; subst.
           ++ exact Hf.
           ++ pose proof (retryable_last _ None Hall Hne) as [e [Hl Hp]].
              congruence.
  - intros Hctx.
    unfold IterSeqContext.DoWithAttemptsContext,
      IterSeqContext.AttemptsWithContext.
    cbn [IterSeqContext.Attempts_loop IterSeq.prog].
    destruct (ctx_Err (ctx s)) eqn:He.
    + cbn [IterSeq.returned IterSeq.prog]. rewrite He. reflexivity.
    + destruct (ctx s); simpl in He; congruence.
Qed.

(** The callback cancels the context in its first run and fails: the
    context's error is returned, not the callback's. *)
Lemma IterSeq_DoWithAttemptsContext_cancellation_wins_witness :
  let t := [EvYield (withCallerContext (firstAttempt 0));
            EvCall (Some (errorString "fail 1"))] in
  (doneAfterFirstRun 1 <> ctxActive ->
   Some Canceled = ctx_Err (doneAfterFirstRun 1)) /\
  (doneAfterFirstRun 1 = ctxActive -> calls t <> [] ->
   Some Canceled = last (calls t) None).
Proof.
  intros t.
  apply (proj1 (IterSeq_DoWithAttemptsContext_cancellation_wins nat
                  (fun _ d _ => d) doneAfterFirstRun (fun _ n => n)
                  failNumbered [Tries 3] env0 5%nat 0%nat)
               (Some Canceled) 1%nat t).
  - vm_compute. reflexivity.
  - repeat constructor. exists (errorString "fail 1"). split; reflexivity.
Defined.

(** ** Attempts: the attempts that are yielded *)

Lemma yielded_app (t1 t2 : list Event) :
  yielded (t1 ++ t2) = yielded t1 ++ yielded t2.
Proof. apply flat_map_app. Qed.

Lemma yielded_sleep_prefix (b : bool) (d : Duration) (t : list Event) :
  yielded ((if b then [EvSleep d] else []) ++ t) = yielded t.
Proof. destruct b; reflexivity. Qed.

Lemma numberedFrom_nil (config : RetryConfig) (from : Z) :
  numberedFrom config from [].
Proof.
  split; [reflexivity | split; [constructor | intros; simpl; lia]].
Qed.

Lemma numberedFrom_cons (config : RetryConfig) (from : Z) (a : Attempt)
  (l : list Attempt) :
  Number a = from + 1 -> LastError a = None ->
  (0 < MaxRetries config -> 0 <= from -> from + 1 <= MaxRetries config) ->
  numberedFrom config (from + 1) l ->
  numberedFrom config from (a :: l).
Proof.
  intros Hn Hl Hc [H1 [H2 H3]]. split; [|split].
  - cbn [map List.length seq]. rewrite Hn, H1. f_equal; try lia.
    rewrite <- (seq_shift (List.length l) 1), map_map.
    apply map_ext. intros k. lia.
  - constructor; assumption.
  - intros H0 Hf. specialize (Hc H0 Hf). specialize (H3 H0 ltac:(lia)).
    cbn [List.length]. lia.
Qed.

Section YieldedAttempts.
Context {C : Type}.
Variable config : RetryConfig.
Variable env : Env.
Variable yield : Yield C.
Hypothesis Hquiet : forall a c, yielded (snd (yield a c)) = [].

Lemma IterFunc_loop_numbered fuel :
  forall attempts cd ni c,
    numberedFrom config attempts
      (yielded (snd (IterFunc.Attempts_loop config env yield fuel attempts
                                            cd ni c))).
Proof.
  induction fuel as [|fuel IH]; intros attempts cd ni c.
  - apply numberedFrom_nil.
  - cbn [IterFunc.Attempts_loop].
    match goal with
    | |- context [if ?b then (true, c, []) else _] => destruct b eqn:Hstop
    end; [apply numberedFrom_nil|].
    assert (Hcap : 0 < MaxRetries config -> 0 <= attempts ->
                   attempts + 1 <= MaxRetries config).
    { intros H0 Ha. destruct (Z.ltb_spec 1 (attempts + 1)); [|lia].
      destruct ((0 <? MaxRetries config)
                && (MaxRetries config <? attempts + 1)) eqn:E;
        [discriminate|].
      apply andb_false_iff in E.
      destruct E as [E|E]; apply Z.ltb_ge in E; lia. }
    pose proof (Hquiet {| Number := attempts + 1; Delay := cd;
                          Elapsed := since env (attempts + 1);
                          LastError := None; Context := Background |} c)
      as Hq.
    destruct (yield _ c) as [[more c1] t1]. cbn [snd] in Hq.
    destruct more; cbn [negb].
    + specialize (IH (attempts + 1) ni
                     (computeNextInterval config ni (rnd env (attempts + 1)))
                     c1).
      destruct (IterFunc.Attempts_loop _ _ _ fuel _ _ _ _) as [[fin c2] t2].
      cbn [snd] in *. rewrite yielded_sleep_prefix.
      change (yielded (EvYield ?a :: t1 ++ t2))
        with (a :: yielded (t1 ++ t2)).
      rewrite yielded_app, Hq. cbn [app].
      apply numberedFrom_cons; auto.
    + cbn [snd]. rewrite yielded_sleep_prefix.
      change (yielded (EvYield ?a :: t1)) with (a :: yielded t1).
      rewrite Hq. apply numberedFrom_cons; auto. apply numberedFrom_nil.
Qed.

Lemma IterSeq_loop_numbered
  (getNextInterval : Z -> Duration -> float64 -> Duration) fuel :
  forall i cur elapsed c,
    numberedFrom config i
      (yielded (snd (IterSeq.Attempts_loop getNextInterval config env yield
                                           fuel i cur elapsed c))).
Proof.
  induction fuel as [|fuel IH]; intros i cur elapsed c.
  - apply numberedFrom_nil.
  - cbn [IterSeq.Attempts_loop].
    destruct ((0 <? MaxRetries config) && (MaxRetries config <=? i)) eqn:Hs1;
      [apply numberedFrom_nil|].
    destruct ((0 <? MaxElapsedTime config)
              && (MaxElapsedTime config <? elapsed));
      [apply numberedFrom_nil|].
    assert (Hcap : 0 < MaxRetries config -> 0 <= i ->
                   i + 1 <= MaxRetries config).
    { intros H0 _. apply (andb_max_retries_false _ _ H0) in Hs1. lia. }
    assert (Ht0 : forall (tl : list Event),
               yielded (snd (if 0 <? i
                             then (since env (i + 1), [EvSleep cur])
                             else (elapsed, [])) ++ tl) = yielded tl)
      by (intros tl; destruct (0 <? i); reflexivity).
    destruct (if 0 <? i then (since env (i + 1), [EvSleep cur])
              else (elapsed, [])) as [elapsed' t0].
    cbn [snd] in Ht0.
    pose proof (Hquiet {| Number := i + 1;
                          Delay := if i =? 0 then 0 else cur;
                          Elapsed := elapsed; LastError := None;
                          Context := Background |} c) as Hq.
    destruct (yield _ c) as [[more c1] t1]. cbn [snd] in Hq.
    destruct more; cbn [negb].
    + match goal with
      | |- context [IterSeq.Attempts_loop _ _ _ _ fuel ?i' ?c' ?e' ?s'] =>
          specialize (IH i' c' e' s');
          destruct (IterSeq.Attempts_loop _ _ _ _ fuel i' c' e' s')
            as [[fin c2] t2]
      end.
      cbn [snd] in *. rewrite Ht0.
      change (yielded (EvYield ?a :: t1 ++ t2))
        with (a :: yielded (t1 ++ t2)).
      rewrite yielded_app, Hq. cbn [app].
      apply numberedFrom_cons; auto.
    + cbn [snd]. rewrite Ht0.
      change (yielded (EvYield ?a :: t1)) with (a :: yielded t1).
      rewrite Hq. apply numberedFrom_cons; auto. apply numberedFrom_nil.
Qed.
End YieldedAttempts.

(** X18: for a consumer that yields no attempts of its own, both
    revisions of [Attempts] hand out attempts numbered 1, 2, 3, ... without
    gaps, every one of them with a nil [LastError] (the iterators never
    fill the field), and with [MaxRetries = n > 0] at most [n] of them. *)
Theorem Attempts_are_numbered_and_capped :
  forall (getNextInterval : Z -> Duration -> float64 -> Duration)
         (opts : list Option) (env : Env) (fuel : nat)
         (C : Type) (yield : Yield C) (c : C),
    (forall a c, yielded (snd (yield a c)) = []) ->
    numberedFrom (applyOptions opts defaultConfig) 0
      (yielded (snd (IterFunc.Attempts opts env fuel C yield c))) /\
    numberedFrom (applyOptions opts defaultConfig) 0
      (yielded (snd (IterSeq.Attempts getNextInterval opts env fuel C
                                      yield c))).
Proof.
  intros getNextInterval opts env fuel C yield c Hq. split.
  - apply IterFunc_loop_numbered. exact Hq.
  - apply IterSeq_loop_numbered. exact Hq.
Qed.

Lemma Attempts_are_numbered_and_capped_witness :
  numberedFrom (applyOptions [Tries 2; Initial 0; NoJitter] defaultConfig) 0
    (yielded (snd (IterFunc.Attempts [Tries 2; Initial 0; NoJitter] env0 5 nat
                     (fun _ n => (true, S n, [])) 0%nat))).
Proof.
  apply (proj1 (Attempts_are_numbered_and_capped (fun _ d _ => d)
                  [Tries 2; Initial 0; NoJitter] env0 5%nat nat
                  (fun _ n => (true, S n, [])) 0%nat
                  (fun _ _ => eq_refl))).
Defined.

(** ** The HTTP helpers *)

Section RetryInvariant.
Context {St : Type} (fn : RetryableFunc St) (config : RetryConfig) (env : Env).
Variable Inv : St -> Prop.
Variable Post : option error -> St -> Prop.
Hypothesis step : forall s,
  Inv s ->
  Post (fst (fst (fn s))) (snd (fst (fn s))) /\
  (retryable (fst (fst (fn s))) -> Inv (snd (fst (fn s)))).

(** What [Retry] returns and the state it leaves are those of the last
    call of the function. *)
Lemma Retry_loop_last_call fuel :
  forall attempts cur s x s' t,
    Inv s ->
    Retry_loop fn config env fuel attempts cur s = (Return x, s', t) ->
    exists r, Post r s' /\ x = outcome r.
Proof.
  induction fuel as [|fuel IH]; intros attempts cur s x s' t HI Hrun;
    simpl in Hrun; [discriminate|].
  pose proof (step s HI) as [HP HN].
  destruct (fn s) as [[err s1] t1]; simpl in HP, HN.
  destruct err as [e|].
  - destruct (errors_As_permanent e) as [inner|] eqn:Has.
    + inversion Hrun; subst. exists (Some e). split; [exact HP|].
      unfold outcome. rewrite Has. reflexivity.
    + assert (Hout : outcome (Some e) = Some e)
        by (unfold outcome; rewrite Has; reflexivity).
      destruct ((0 <? MaxRetries config) && (MaxRetries config <=? attempts + 1)).
      { inversion Hrun; subst. exists (Some e). split; [exact HP|].
        symmetry; exact Hout. }
      destruct ((0 <? MaxElapsedTime config)
                && (MaxElapsedTime config <=? since env (attempts + 1))).
      { inversion Hrun; subst. exists (Some e). split; [exact HP|].
        symmetry; exact Hout. }
      destruct (Retry_loop fn config env fuel (attempts + 1)
                  (computeNextInterval config cur (rnd env (attempts + 1))) s1)
        as [[r2 s2] t2] eqn:Hrec.
      inversion Hrun; subst.
      apply (IH _ _ _ _ _ _ (HN (ex_intro _ e (conj eq_refl Has))) Hrec).
  - inversion Hrun; subst. exists None. split; [exact HP|reflexivity].
Qed.
End RetryInvariant.

Lemma lastResponse_app log res d :
  lastResponse (log ++ [res]) d =
  match res with
  | inl r => Some r
  | inr _ => lastResponse log d
  end.
Proof.
  revert d. induction log as [|x log IH]; intros d; simpl.
  - destruct res; reflexivity.
  - destruct x; apply IH.
Qed.

(** X19: [HTTPDo] never returns a response together with an error, and
    never returns a response with a retryable status: when the client's
    errors are not marked permanent, what it returns is decided by the last
    thing the client returned.  A response whose status is below 500 and
    not 429 is returned with a nil error; a response with status 429 or at
    least 500 gives a nil response and the error naming the status; an
    error of the client gives a nil response and that error. *)
Theorem HTTPDo_response_or_error :
  forall (St : Type) (do : Doer St) (opts : list Option) (env : Env)
         (fuel : nat) (s s' : St) (resp : option Response)
         (err : option error) (log : list (Response + error))
         (t : list Event),
    (forall s e s1, do s = (inr e, s1) -> errors_As_permanent e = None) ->
    HTTPDo (logged_doer do) opts env fuel (s, []) =
      (resp, Return err, (s', log), t) ->
    exists log0 res,
      log = log0 ++ [res] /\
      match res with
      | inl r =>
          if retryableStatus (StatusCode r)
          then resp = None /\
               err = Some (retryableStatusError (StatusCode r))
          else resp = Some r /\ err = None
      | inr e => resp = None /\ err = Some e
      end.
Proof.
  intros St do opts env fuel s s' resp err log t Hun Hrun.
  unfold HTTPDo, Retry in Hrun.
  destruct (Retry_loop (HTTPDo_closure (logged_doer do))
              (applyOptions opts defaultConfig) env fuel 0
              (InitialInterval (applyOptions opts defaultConfig))
              (None, (s, []))) as [[x [rv [sf lf]]] tf] eqn:Hloop.
  inversion Hrun; subst; clear Hrun.
  destruct (Retry_loop_last_call (HTTPDo_closure (logged_doer do))
              (applyOptions opts defaultConfig) env
              (fun st => fst st = None)
              (fun r st =>
                 exists log0 res,
                   snd (snd st) = log0 ++ [res] /\
                   match res with
                   | inl r0 =>
                       if retryableStatus (StatusCode r0)
                       then fst st = None /\
                            r = Some (retryableStatusError (StatusCode r0))
                       else fst st = Some r0 /\ r = None
                   | inr e => fst st = None /\ r = Some e /\
                              errors_As_permanent e = None
                   end)) with (fuel := fuel) (attempts := 0)
      (cur := InitialInterval (applyOptions opts defaultConfig))
      (s := (@None Response, (s, @nil (Response + error))))
      (x := err) (s' := (resp, (s', log))) (t := t)
    as [r [[log0 [res [Hlog Hres]]] Hx]].
  - intros [rv [s0 l0]] HI. simpl in HI. subst rv.
    unfold HTTPDo_closure, logged_doer.
    destruct (do s0) as [res s1] eqn:Hdo. destruct res as [r0|e].
    + destruct (retryableStatus (StatusCode r0)) eqn:Hst; simpl.
      * split; [|reflexivity].
        exists l0, (inl r0). rewrite Hst. auto.
      * split; [|intros [e [He _]]; discriminate].
        exists l0, (inl r0). rewrite Hst. auto.
    + simpl. split; [|reflexivity].
      exists l0, (inr e). repeat split. exact (Hun _ _ _ Hdo).
  - reflexivity.
  - exact Hloop.
  - simpl in Hlog, Hres. exists log0, res. split; [exact Hlog|].
    destruct res as [r0|e].
    + destruct (retryableStatus (StatusCode r0)).
      * destruct Hres as [-> ->]. split; [reflexivity|exact Hx].
      * destruct Hres as [-> ->]. split; [reflexivity|exact Hx].
    + destruct Hres as [-> [-> Has]]. split; [reflexivity|].
      rewrite Hx. unfold outcome. rewrite Has. reflexivity.
Qed.

Lemma HTTPDo_response_or_error_witness :
  exists log0 res,
    [inl (mkResponse 503 emptyHeader); inl (mkResponse 200 emptyHeader)] = log0 ++ [res] /\
    match res with
    | inl r =>
        if retryableStatus (StatusCode r)
        then Some (mkResponse 200 emptyHeader) = None /\
             @None error = Some (retryableStatusError (StatusCode r))
        else Some (mkResponse 200 emptyHeader) = Some r /\ @None error = None
    | inr e => Some (mkResponse 200 emptyHeader) = None /\ @None error = Some e
    end.
Proof.
  apply (HTTPDo_response_or_error nat
           (scripted (inl (mkResponse 503 emptyHeader)) [inl (mkResponse 200 emptyHeader)])
           scenarioOpts env0 5%nat 0%nat 2%nat
           (Some (mkResponse 200 emptyHeader)) None
           [inl (mkResponse 503 emptyHeader); inl (mkResponse 200 emptyHeader)]
           (snd (HTTPDo (logged_doer
                           (scripted (inl (mkResponse 503 emptyHeader))
                                     [inl (mkResponse 200 emptyHeader)]))
                        scenarioOpts env0 5%nat (0%nat, [])))).
  - intros s e s1 H. unfold scripted in H.
    destruct s as [|[|s]]; simpl in H; try discriminate.
    destruct s; discriminate.
  - vm_compute. reflexivity.
Defined.

(** X20: [HTTPRetryTransport.RoundTrip] returns the last response the
    transport produced, whatever the error it returns with it: after a
    response with status 429 or at least 500 ended the retries, it returns
    that response together with the error naming the status; after an
    error of the transport ended them, it returns that error (unwrapped if
    marked permanent) together with the response of the latest earlier
    round that had one. *)
Theorem RoundTrip_returns_last_response :
  forall (St : Type) (do : Doer St) (opts : list Option) (env : Env)
         (fuel : nat) (s s' : St) (resp : option Response)
         (err : option error) (log : list (Response + error))
         (t : list Event),
    RoundTrip (logged_doer do) opts env fuel (s, []) =
      (resp, Return err, (s', log), t) ->
    exists log0 res,
      log = log0 ++ [res] /\
      match res with
      | inl r =>
          resp = Some r /\
          err = if retryableStatus (StatusCode r)
                then Some (retryableStatusError (StatusCode r))
                else None
      | inr e => resp = lastResponse log0 None /\ err = outcome (Some e)
      end.
Proof.
  intros St do opts env fuel s s' resp err log t Hrun.
  unfold RoundTrip, Retry in Hrun.
  destruct (Retry_loop (RoundTrip_closure (logged_doer do))
              (applyOptions opts defaultConfig) env fuel 0
              (InitialInterval (applyOptions opts defaultConfig))
              (None, (s, []))) as [[x [rv [sf lf]]] tf] eqn:Hloop.
  inversion Hrun; subst; clear Hrun.
  destruct (Retry_loop_last_call (RoundTrip_closure (logged_doer do))
              (applyOptions opts defaultConfig) env
              (fun st => fst st = lastResponse (snd (snd st)) None)
              (fun r st =>
                 exists log0 res,
                   snd (snd st) = log0 ++ [res] /\
                   fst st = lastResponse (snd (snd st)) None /\
                   r = match res with
                       | inl r0 =>
                           if retryableStatus (StatusCode r0)
                           then Some (retryableStatusError (StatusCode r0))
                           else None
                       | inr e => Some e
                       end)) with (fuel := fuel) (attempts := 0)
      (cur := InitialInterval (applyOptions opts defaultConfig))
      (s := (@None Response, (s, @nil (Response + error))))
      (x := err) (s' := (resp, (s', log))) (t := t)
    as [r [[log0 [res [Hlog [Hresp Hr]]]] Hx]].
  - intros [rv [s0 l0]] HI. simpl in HI. subst rv.
    unfold RoundTrip_closure, logged_doer.
    destruct (do s0) as [res s1] eqn:Hdo. destruct res as [r0|e].
    + destruct (retryableStatus (StatusCode r0)) eqn:Hst; simpl.
      * assert (Hl : Some r0 = lastResponse (l0 ++ [inl r0]) None)
          by (rewrite lastResponse_app; reflexivity).
        split; [|intros _; exact Hl].
        exists l0, (inl r0). rewrite Hst. auto.
      * split; [|intros [e [He _]]; discriminate].
        exists l0, (inl r0). rewrite Hst. rewrite lastResponse_app. auto.
    + simpl.
      assert (Hl : lastResponse l0 None = lastResponse (l0 ++ [inr e]) None)
        by (rewrite lastResponse_app; reflexivity).
      split; [|intros _; exact Hl].
      exists l0, (inr e). auto.
  - reflexivity.
  - exact Hloop.
  - simpl in Hlog, Hresp. exists log0, res. split; [exact Hlog|].
    rewrite Hlog, lastResponse_app in Hresp.
    destruct res as [r0|e].
    + split; [exact Hresp|]. rewrite Hx, Hr.
      destruct (retryableStatus (StatusCode r0)); reflexivity.
    + split; [exact Hresp|]. rewrite Hx, Hr. reflexivity.
Qed.

Lemma RoundTrip_returns_last_response_witness :
  exists log0 res,
    [inl (mkResponse 503 emptyHeader); inr (errorString "connection reset")]
      = log0 ++ [res] /\
    match res with
    | inl r =>
        Some (mkResponse 503 emptyHeader) = Some r /\
        Some (errorString "connection reset") =
          if retryableStatus (StatusCode r)
          then Some (retryableStatusError (StatusCode r))
          else None
    | inr e => Some (mkResponse 503 emptyHeader) = lastResponse log0 None /\
               Some (errorString "connection reset") = outcome (Some e)
    end.
Proof.
  apply (RoundTrip_returns_last_response nat
           (scripted (inl (mkResponse 503 emptyHeader))
                     [inr (errorString "connection reset")])
           [Tries 2; Initial 0; NoJitter] env0 5%nat 0%nat 2%nat
           (Some (mkResponse 503 emptyHeader))
           (Some (errorString "connection reset"))
           [inl (mkResponse 503 emptyHeader); inr (errorString "connection reset")]
           (snd (RoundTrip (logged_doer
                              (scripted (inl (mkResponse 503 emptyHeader))
                                 [inr (errorString "connection reset")]))
                           [Tries 2; Initial 0; NoJitter] env0 5%nat
                           (0%nat, [])))).
  vm_compute. reflexivity.
Defined.

(** ** The retry middleware *)

Lemma record_fold ops :
  forall r,
    Headers (fold_left record ops r) = headersOf ops (Headers r) /\
    Body (fold_left record ops r) = Body r ++ bodyOf ops /\
    (wroteHeader r = true -> Code (fold_left record ops r) = Code r) /\
    (wroteHeader r = false -> Code r = StatusOK ->
     Code (fold_left record ops r) = statusOf ops).
Proof.
  induction ops as [|op ops IH]; intros r; simpl.
  - rewrite app_nil_r. auto.
  - destruct (IH (record r op)) as [Hh [Hb [Hc Hn]]].
    rewrite Hh, Hb. clear Hh Hb.
    destruct op as [f|code|b]; simpl in *.
    + auto.
    + unfold WriteHeader in *. destruct (wroteHeader r) eqn:Hwr; simpl in *.
      * repeat split; auto. discriminate.
      * repeat split; auto. discriminate.
    + unfold Write, WriteHeader in *.
      destruct (wroteHeader r) eqn:Hwr; simpl in *.
      * rewrite Hwr in *. rewrite <- app_assoc.
        repeat split; auto. discriminate.
      * rewrite <- app_assoc. repeat split; auto. discriminate.
Qed.

Lemma record_from_new ops :
  Code (fold_left record ops newResponseRecorder) = statusOf ops /\
  Body (fold_left record ops newResponseRecorder) = bodyOf ops /\
  Headers (fold_left record ops newResponseRecorder)
    = headersOf ops emptyHeader.
Proof.
  destruct (record_fold ops newResponseRecorder) as [Hh [Hb [_ Hc]]].
  simpl in Hh, Hb. repeat split; auto.
Qed.

(** X21: The recorder keeps the first status and all the bytes: after a
    reset, whatever the recorder held before, a handler's operations leave
    it with the code of the first [WriteHeader] (200 when a [Write] comes
    first or no status is written; later [WriteHeader] calls change
    nothing), with the written bytes concatenated in order, and with the
    header map the handler's changes give from an empty one. *)
Theorem recorder_keeps_first_status_and_all_bytes :
  forall (ops : list WriterOp) (r : responseRecorder),
    Code (fold_left record ops (reset r)) = statusOf ops /\
    Body (fold_left record ops (reset r)) = bodyOf ops /\
    Headers (fold_left record ops (reset r)) = headersOf ops emptyHeader.
Proof.
  intros ops r. exact (record_from_new ops).
Qed.

(** X22: A recorder that is given what another recorder's [writeTo]
    writes ends with the same code, the same body and the same header
    bindings: stacking the middleware passes a response on unchanged. *)
Theorem writeTo_recorded_is_same_response :
  forall r : responseRecorder,
    Code (fold_left record (writeTo r) newResponseRecorder) = Code r /\
    Body (fold_left record (writeTo r) newResponseRecorder) = Body r /\
    forall k,
      Headers (fold_left record (writeTo r) newResponseRecorder) k
      = Headers r k.
Proof.
  intros r. unfold writeTo.
  destruct (Body r) as [|b0 body] eqn:Hb; simpl.
  - repeat split. intros k. unfold copyHeaders, emptyHeader.
    destruct (Headers r k); reflexivity.
  - repeat split. intros k. unfold copyHeaders, emptyHeader.
    destruct (Headers r k); reflexivity.
Qed.

(** X23: When [ServeHTTP] returns, what it wrote to the response writer
    is the response of the last run of the handler alone, whether that run
    was accepted or the retries ran out: the headers of that run are
    copied, its status is written once, and its body is written in one
    piece if it is not empty.  Nothing of the earlier runs is written. *)
Theorem ServeHTTP_writes_last_run_only :
  forall (St : Type) (next : Handler St) (checker : ResponseChecker)
         (opts : list Option) (env : Env) (fuel : nat) (s s' : St)
         (out : list WriterOp) (log : list (list WriterOp))
         (t : list Event),
    ServeHTTP (logged_handler next) checker opts env fuel (s, []) =
      (Some out, (s', log), t) ->
    exists log0 ops,
      log = log0 ++ [ops] /\
      out = [OpHeader (copyHeaders (headersOf ops emptyHeader));
             OpWriteHeader (statusOf ops)]
            ++ match bodyOf ops with
               | [] => []
               | _ :: _ => [OpWrite (bodyOf ops)]
               end.
Proof.
  intros St next checker opts env fuel s s' out log t Hrun.
  unfold ServeHTTP, Retry in Hrun.
  destruct (Retry_loop (ServeHTTP_closure (logged_handler next) checker)
              (applyOptions opts defaultConfig) env fuel 0
              (InitialInterval (applyOptions opts defaultConfig))
              (newResponseRecorder, (s, []))) as [[x [rec [sf lf]]] tf]
    eqn:Hloop.
  assert (Hx : exists e, x = Return e /\ out = writeTo rec /\ lf = log).
  { destruct x as [[e|]|]; inversion Hrun; subst; eauto. }
  destruct Hx as [e [-> [-> ->]]]. clear Hrun.
  destruct (Retry_loop_last_call
              (ServeHTTP_closure (logged_handler next) checker)
              (applyOptions opts defaultConfig) env
              (fun _ => True)
              (fun _ st =>
                 exists log0 ops,
                   snd (snd st) = log0 ++ [ops] /\
                   fst st = fold_left record ops newResponseRecorder))
      with (fuel := fuel) (attempts := 0)
      (cur := InitialInterval (applyOptions opts defaultConfig))
      (s := (newResponseRecorder, (s, @nil (list WriterOp))))
      (x := e) (s' := (rec, (sf, log))) (t := tf)
    as [r [[log0 [ops [Hlog Hrec]]] _]].
  - intros [r0 [s0 l0]] _.
    unfold ServeHTTP_closure, logged_handler.
    destruct (next s0) as [ops s1].
    destruct (checker (recorder_Result (fold_left record ops (reset r0))));
      simpl; (split; [|trivial]); exists l0, ops; auto.
  - exact I.
  - exact Hloop.
  - simpl in Hlog, Hrec. exists log0, ops. split; [exact Hlog|].
    subst rec. unfold writeTo.
    destruct (record_from_new ops)
      as [Hc [Hb Hh]].
    rewrite Hc, Hb, Hh.
    destruct (bodyOf ops); reflexivity.
Qed.

Lemma ServeHTTP_writes_last_run_only_witness :
  exists log0 ops,
    [[OpWriteHeader 503; OpWrite [Byte.x6e; Byte.x6f]];
     [OpWrite [Byte.x6f]; OpWrite [Byte.x6b]; OpWriteHeader 500]]
      = log0 ++ [ops] /\
    [OpHeader (copyHeaders emptyHeader); OpWriteHeader 200;
     OpWrite [Byte.x6f; Byte.x6b]]
      = [OpHeader (copyHeaders (headersOf ops emptyHeader));
         OpWriteHeader (statusOf ops)]
        ++ match bodyOf ops with
           | [] => []
           | _ :: _ => [OpWrite (bodyOf ops)]
           end.
Proof.
  apply (ServeHTTP_writes_last_run_only nat
           (scripted [OpWriteHeader 503; OpWrite [Byte.x6e; Byte.x6f]]
                     [[OpWrite [Byte.x6f]; OpWrite [Byte.x6b];
                       OpWriteHeader 500]])
           DefaultResponseChecker scenarioOpts env0 5%nat 0%nat 2%nat
           [OpHeader (copyHeaders emptyHeader); OpWriteHeader 200;
            OpWrite [Byte.x6f; Byte.x6b]]
           [[OpWriteHeader 503; OpWrite [Byte.x6e; Byte.x6f]];
            [OpWrite [Byte.x6f]; OpWrite [Byte.x6b]; OpWriteHeader 500]]
           (snd (ServeHTTP
                   (logged_handler
                      (scripted
                         [OpWriteHeader 503; OpWrite [Byte.x6e; Byte.x6f]]
                         [[OpWrite [Byte.x6f]; OpWrite [Byte.x6b];
                           OpWriteHeader 500]]))
                   DefaultResponseChecker scenarioOpts env0 5%nat
                   (0%nat, [])))).
  vm_compute. reflexivity.
Defined.

(** ** The attempt budget of the HTTP helpers and of the middleware *)

Section RetryCount.
Context {St : Type} (fn : RetryableFunc St) (config : RetryConfig) (env : Env).
Variable count : St -> nat.
Hypothesis count_step : forall s, count (snd (fst (fn s))) = S (count s).

Lemma Retry_loop_count_bound fuel :
  forall attempts cur s,
    0 <= attempts -> attempts < MaxRetries config ->
    (count s + (match fuel with O => 0 | S _ => 1 end)
     <= count (snd (fst (Retry_loop fn config env fuel attempts cur s))))%nat /\
    Z.of_nat (count (snd (fst (Retry_loop fn config env fuel attempts cur s))))
    <= Z.of_nat (count s) + (MaxRetries config - attempts).
Proof.
  induction fuel as [|fuel IH]; intros attempts cur s H0 Ha; simpl.
  - lia.
  - pose proof (count_step s) as Hc.
    destruct (fn s) as [[err s1] t1]; simpl in Hc.
    destruct err as [e|]; [|simpl; lia].
    destruct (errors_As_permanent e); [simpl; lia|].
    destruct ((0 <? MaxRetries config) && (MaxRetries config <=? attempts + 1))
      eqn:Hstop; [simpl; lia|].
    apply andb_max_retries_false in Hstop; [|lia].
    destruct ((0 <? MaxElapsedTime config)
              && (MaxElapsedTime config <=? since env (attempts + 1)));
      [simpl; lia|].
    specialize (IH (attempts + 1)
                  (computeNextInterval config cur (rnd env (attempts + 1)))
                  s1 ltac:(lia) Hstop).
    destruct (Retry_loop fn config env fuel (attempts + 1)
                (computeNextInterval config cur (rnd env (attempts + 1))) s1)
      as [[r2 s2] t2].
    simpl in *. destruct fuel; lia.
Qed.

Lemma Retry_loop_returns_any fuel :
  forall attempts cur s,
    0 <= attempts -> attempts < MaxRetries config ->
    (Z.to_nat (MaxRetries config - attempts) <= fuel)%nat ->
    fst (fst (Retry_loop fn config env fuel attempts cur s)) <> OutOfFuel.
Proof.
  induction fuel as [|fuel IH]; intros attempts cur s H0 Ha Hf; simpl.
  - lia.
  - destruct (fn s) as [[err s1] t1].
    destruct err as [e|]; [|simpl; discriminate].
    destruct (errors_As_permanent e); [simpl; discriminate|].
    destruct ((0 <? MaxRetries config) && (MaxRetries config <=? attempts + 1))
      eqn:Hstop; [simpl; discriminate|].
    apply andb_max_retries_false in Hstop; [|lia].
    destruct ((0 <? MaxElapsedTime config)
              && (MaxElapsedTime config <=? since env (attempts + 1)));
      [simpl; discriminate|].
    specialize (IH (attempts + 1)
                  (computeNextInterval config cur (rnd env (attempts + 1)))
                  s1 ltac:(lia) Hstop ltac:(lia)).
    destruct (Retry_loop fn config env fuel (attempts + 1)
                (computeNextInterval config cur (rnd env (attempts + 1))) s1)
      as [[r2 s2] t2].
    simpl in *. exact IH.
Qed.
End RetryCount.

(** X24: With a positive attempt limit, [HTTPDo] and
    [HTTPRetryTransport.RoundTrip] return, and by then the client or the
    transport has been asked at least once and at most [MaxRetries]
    times. *)
Theorem HTTP_helpers_respect_attempt_limit :
  forall (St : Type) (do : Doer St) (opts : list Option) (env : Env)
         (fuel : nat) (s : St),
    0 < MaxRetries (applyOptions opts defaultConfig) ->
    (Z.to_nat (MaxRetries (applyOptions opts defaultConfig)) <= fuel)%nat ->
    (exists resp err s' log t,
       HTTPDo (logged_doer do) opts env fuel (s, [])
         = (resp, Return err, (s', log), t) /\
       1 <= Z.of_nat (List.length log)
         <= MaxRetries (applyOptions opts defaultConfig)) /\
    (exists resp err s' log t,
       RoundTrip (logged_doer do) opts env fuel (s, [])
         = (resp, Return err, (s', log), t) /\
       1 <= Z.of_nat (List.length log)
         <= MaxRetries (applyOptions opts defaultConfig)).
Proof.
  intros St do opts env fuel s Hn Hf. split.
  - unfold HTTPDo, Retry.
    pose proof (Retry_loop_count_bound (HTTPDo_closure (logged_doer do))
                  (applyOptions opts defaultConfig) env
                  (fun st => List.length (snd (snd st)))) as Hb.
    pose proof (Retry_loop_returns_any (HTTPDo_closure (logged_doer do))
                  (applyOptions opts defaultConfig) env) as Hr.
    specialize (Hr fuel 0 (InitialInterval (applyOptions opts defaultConfig))
                  (None, (s, [])) ltac:(lia) Hn
                  ltac:(rewrite Z.sub_0_r; exact Hf)).
    assert (Hstep : forall st : option Response * (St * list (Response + error)),
              List.length (snd (snd (snd (fst
                 (HTTPDo_closure (logged_doer do) st)))))
              = S (List.length (snd (snd st)))).
    { intros [rv [s0 l0]]. unfold HTTPDo_closure, logged_doer.
      destruct (do s0) as [res s1]. simpl.
      destruct res as [r0|e];
        [destruct (retryableStatus (StatusCode r0))|]; simpl;
        rewrite length_app; simpl; lia. }
    specialize (Hb Hstep fuel 0
                  (InitialInterval (applyOptions opts defaultConfig))
                  (None, (s, [])) ltac:(lia) Hn).
    destruct (Retry_loop (HTTPDo_closure (logged_doer do))
                (applyOptions opts defaultConfig) env fuel 0
                (InitialInterval (applyOptions opts defaultConfig))
                (None, (s, []))) as [[x [rv [sf lf]]] tf].
    simpl in Hb, Hr. destruct x as [err|]; [|congruence].
    exists rv, err, sf, lf, tf. split; [reflexivity|].
    destruct fuel; [lia|]. simpl in Hb. lia.
  - unfold RoundTrip, Retry.
    pose proof (Retry_loop_count_bound (RoundTrip_closure (logged_doer do))
                  (applyOptions opts defaultConfig) env
                  (fun st => List.length (snd (snd st)))) as Hb.
    pose proof (Retry_loop_returns_any (RoundTrip_closure (logged_doer do))
                  (applyOptions opts defaultConfig) env) as Hr.
    specialize (Hr fuel 0 (InitialInterval (applyOptions opts defaultConfig))
                  (None, (s, [])) ltac:(lia) Hn
                  ltac:(rewrite Z.sub_0_r; exact Hf)).
    assert (Hstep : forall st : option Response * (St * list (Response + error)),
              List.length (snd (snd (snd (fst
                 (RoundTrip_closure (logged_doer do) st)))))
              = S (List.length (snd (snd st)))).
    { intros [rv [s0 l0]]. unfold RoundTrip_closure, logged_doer.
      destruct (do s0) as [res s1]. simpl.
      destruct res as [r0|e];
        [destruct (retryableStatus (StatusCode r0))|]; simpl;
        rewrite length_app; simpl; lia. }
    specialize (Hb Hstep fuel 0
                  (InitialInterval (applyOptions opts defaultConfig))
                  (None, (s, [])) ltac:(lia) Hn).
    destruct (Retry_loop (RoundTrip_closure (logged_doer do))
                (applyOptions opts defaultConfig) env fuel 0
                (InitialInterval (applyOptions opts defaultConfig))
                (None, (s, []))) as [[x [rv [sf lf]]] tf].
    simpl in Hb, Hr. destruct x as [err|]; [|congruence].
    exists rv, err, sf, lf, tf. split; [reflexivity|].
    destruct fuel; [lia|]. simpl in Hb. lia.
Qed.

Lemma HTTP_helpers_respect_attempt_limit_witness :
  (exists resp err s' log t,
     HTTPDo (logged_doer (scripted (inl (mkResponse 503 emptyHeader))
                                   [inl (mkResponse 200 emptyHeader)]))
            scenarioOpts env0 5%nat (0%nat, [])
       = (resp, Return err, (s', log), t) /\
     1 <= Z.of_nat (List.length log)
       <= MaxRetries (applyOptions scenarioOpts defaultConfig)) /\
  (exists resp err s' log t,
     RoundTrip (logged_doer (scripted (inl (mkResponse 503 emptyHeader))
                                      [inl (mkResponse 200 emptyHeader)]))
               scenarioOpts env0 5%nat (0%nat, [])
       = (resp, Return err, (s', log), t) /\
     1 <= Z.of_nat (List.length log)
       <= MaxRetries (applyOptions scenarioOpts defaultConfig)).
Proof.
  apply (HTTP_helpers_respect_attempt_limit nat
           (scripted (inl (mkResponse 503 emptyHeader))
                     [inl (mkResponse 200 emptyHeader)])
           scenarioOpts env0 5%nat 0%nat).
  - vm_compute. reflexivity.
  - vm_compute. lia.
Defined.

(** X25: With a positive attempt limit, [ServeHTTP] returns and writes a
    response, after running the wrapped handler at least once and at most
    [MaxRetries] times. *)
Theorem ServeHTTP_respects_attempt_limit :
  forall (St : Type) (next : Handler St) (checker : ResponseChecker)
         (opts : list Option) (env : Env) (fuel : nat) (s : St),
    0 < MaxRetries (applyOptions opts defaultConfig) ->
    (Z.to_nat (MaxRetries (applyOptions opts defaultConfig)) <= fuel)%nat ->
    exists out s' log t,
      ServeHTTP (logged_handler next) checker opts env fuel (s, [])
        = (Some out, (s', log), t) /\
      1 <= Z.of_nat (List.length log)
        <= MaxRetries (applyOptions opts defaultConfig).
Proof.
  intros St next checker opts env fuel s Hn Hf.
  unfold ServeHTTP, Retry.
  pose proof (Retry_loop_count_bound
                (ServeHTTP_closure (logged_handler next) checker)
                (applyOptions opts defaultConfig) env
                (fun st => List.length (snd (snd st)))) as Hb.
  pose proof (Retry_loop_returns_any
                (ServeHTTP_closure (logged_handler next) checker)
                (applyOptions opts defaultConfig) env) as Hr.
  specialize (Hr fuel 0 (InitialInterval (applyOptions opts defaultConfig))
                (newResponseRecorder, (s, [])) ltac:(lia) Hn
                ltac:(rewrite Z.sub_0_r; exact Hf)).
  assert (Hstep : forall st : responseRecorder * (St * list (list WriterOp)),
            List.length (snd (snd (snd (fst
               (ServeHTTP_closure (logged_handler next) checker st)))))
            = S (List.length (snd (snd st)))).
  { intros [rv [s0 l0]]. unfold ServeHTTP_closure, logged_handler.
    destruct (next s0) as [ops s1].
    destruct (checker (recorder_Result (fold_left record ops (reset rv))));
      simpl; rewrite length_app; simpl; lia. }
  specialize (Hb Hstep fuel 0
                (InitialInterval (applyOptions opts defaultConfig))
                (newResponseRecorder, (s, [])) ltac:(lia) Hn).
  destruct (Retry_loop (ServeHTTP_closure (logged_handler next) checker)
              (applyOptions opts defaultConfig) env fuel 0
              (InitialInterval (applyOptions opts defaultConfig))
              (newResponseRecorder, (s, []))) as [[x [rv [sf lf]]] tf].
  simpl in Hb, Hr. destruct x as [err|]; [|congruence].
  assert (Hlen : 1 <= Z.of_nat (List.length lf)
                 <= MaxRetries (applyOptions opts defaultConfig)).
  { destruct fuel; [lia|]. simpl in Hb. lia. }
  destruct err as [e|]; exists (writeTo rv), sf, lf, tf; auto.
Qed.

Lemma ServeHTTP_respects_attempt_limit_witness :
  exists out s' log t,
    ServeHTTP (logged_handler
                 (scripted [OpWriteHeader 503] [[OpWriteHeader 502]]))
              DefaultResponseChecker scenarioOpts env0 5%nat (0%nat, [])
      = (Some out, (s', log), t) /\
    1 <= Z.of_nat (List.length log)
      <= MaxRetries (applyOptions scenarioOpts defaultConfig).
Proof.
  apply (ServeHTTP_respects_attempt_limit nat
           (scripted [OpWriteHeader 503] [[OpWriteHeader 502]])
           DefaultResponseChecker scenarioOpts env0 5%nat 0%nat).
  - vm_compute. reflexivity.
  - vm_compute. lia.
Defined.
